(** * idevice-app-launcher: the gdb-remote client of [src/runApp.ts]

    A shallow embedding of [IosAppRunnerHelper] (framing, path encoding,
    the three-step launch handshake, the image-mount exit handler and the
    proxy spawn) together with the properties its specification states. *)

From Stdlib Require Import List NArith ZArith String Ascii Bool Lia.
From Equations Require Import Equations.
From Equations.Prop Require Import Logic.
Import ListNotations.

(** ** JavaScript strings

    A JavaScript string is a finite sequence of UTF-16 code units;
    [charCodeAt] returns the unit at an index.  We keep the units as
    unbounded [N] so that every real string is covered. *)

Module JS.

Open Scope N_scope.

Definition jsstring := list N.

(** A string literal of the source: each of its bytes as a code unit. *)
Definition lit (s : string) : jsstring :=
  map N_of_ascii (list_ascii_of_string s).

Definition eqb (a b : jsstring) : bool :=
  if list_eq_dec N.eq_dec a b then true else false.

(** [s[i] === c] for a one-character literal [c]; an index past the end
    gives [undefined], which equals no character. *)
Definition charIs (s : jsstring) (i : nat) (c : string) : bool :=
  match nth_error s i with
  | Some u => eqb [u] (lit c)
  | None => false
  end.

(** [s.substring(a, b)] for [a <= b], the only way the source calls it. *)
Definition substring (s : jsstring) (a b : nat) : jsstring :=
  firstn (b - a) (skipn a s).

(** The digit character of [Number.prototype.toString(radix)]: 0-9, a-z. *)
Definition digitChar (d : N) : N :=
  if d <? 10 then 48 + d else 87 + d.

(** [n.toString(radix)] for a non-negative integer [n] and a radix of 2
    to 36: most significant digit first, natural width, ["0"] for zero. *)
Equations? toDigits (radix n : N) (acc : jsstring) : jsstring
  by wf (N.to_nat n) lt :=
  toDigits radix n acc with inspect ((n <? radix) || (radix <? 2)) := {
    | exist _ true _ := digitChar n :: acc
    | exist _ false H :=
        toDigits radix (n / radix) (digitChar (n mod radix) :: acc)
  }.
Proof.
  apply orb_false_iff in H. destruct H as [H1 H2].
  apply N.ltb_ge in H1. apply N.ltb_ge in H2.
  assert (n / radix < n) by (apply N.div_lt; lia). lia.
Qed.

Definition toString16 (n : N) : jsstring := toDigits 16 n [].

(** [n.toString()], as in the concatenation ["A" + encodedPath.length]. *)
Definition toString10 (n : N) : jsstring := toDigits 10 n [].

(** [String.prototype.toUpperCase] on the ASCII letters.  The source only
    applies it to results of [toString(16)], which are made of 0-9a-f. *)
Definition upperUnit (c : N) : N :=
  if (97 <=? c) && (c <=? 122) then c - 32 else c.

Definition toUpperCase (s : jsstring) : jsstring := map upperUnit s.

(** The characters [.] does not match in a regular expression without the
    [s] flag: LF, CR, U+2028 and U+2029. *)
Definition isLineTerminator (c : N) : bool :=
  (c =? 10) || (c =? 13) || (c =? 8232) || (c =? 8233).

(** [s.replace(/./g, f)]: every code unit matched by [.] is replaced by
    [f] of it, every other unit is kept. *)
Definition replaceDot (f : N -> jsstring) (s : jsstring) : jsstring :=
  flat_map (fun c => if isLineTerminator c then [c] else f c) s.

(** [hay.indexOf(needle)]: the first position of [needle], or -1. *)
Fixpoint startsWith (needle hay : jsstring) : bool :=
  match needle, hay with
  | [], _ => true
  | _ :: _, [] => false
  | a :: n', b :: h' => (a =? b) && startsWith n' h'
  end.

Fixpoint indexOfFrom (needle hay : jsstring) (pos : Z) : Z :=
  if startsWith needle hay then pos
  else match hay with
       | [] => (-1)%Z
       | _ :: h' => indexOfFrom needle h' (pos + 1)%Z
       end.

Definition indexOf (hay needle : jsstring) : Z := indexOfFrom needle hay 0%Z.

(** White space skipped by [parseInt] (WhiteSpace and LineTerminator). *)
Definition isStrWhiteSpace (c : N) : bool :=
  existsb (N.eqb c)
    [9; 10; 11; 12; 13; 32; 160; 5760; 8232; 8233; 8239; 8287; 12288; 65279]
  || ((8192 <=? c) && (c <=? 8202)).

Fixpoint trimStart (s : jsstring) : jsstring :=
  match s with
  | c :: r => if isStrWhiteSpace c then trimStart r else s
  | [] => []
  end.

Definition hexVal (c : N) : option N :=
  if (48 <=? c) && (c <=? 57) then Some (c - 48)
  else if (97 <=? c) && (c <=? 102) then Some (c - 87)
  else if (65 <=? c) && (c <=? 70) then Some (c - 55)
  else None.

Fixpoint hexPrefix (s : jsstring) (acc : option N) : option N :=
  match s with
  | c :: r =>
      match hexVal c with
      | Some d => hexPrefix r (Some (16 * match acc with Some a => a | None => 0 end + d))
      | None => acc
      end
  | [] => acc
  end.

(** [parseInt(s, 16)]; [None] is NaN. *)
Definition parseInt16 (s : jsstring) : option Z :=
  let s := trimStart s in
  let '(sign, s) :=
    match s with
    | 45 :: r => ((-1)%Z, r)
    | 43 :: r => (1%Z, r)
    | _ => (1%Z, s)
    end in
  let s :=
    match s with
    | 48 :: x :: r => if (x =? 120) || (x =? 88) then r else s
    | _ => s
    end in
  option_map (fun n => (sign * Z.of_N n)%Z) (hexPrefix s None).

End JS.

Import JS.
Open Scope N_scope.

(** ** Framing and path encoding *)

Definition sumCharCodes (command : jsstring) : N :=
  fold_left (fun stringSum c => stringSum + c) command 0.

(** [IosAppRunnerHelper.makeGdbCommand] *)
Definition makeGdbCommand (command : jsstring) : jsstring :=
  let stringSum := sumCharCodes command in
  let stringSum := stringSum mod 256 in
  let checksum := toUpperCase (toString16 stringSum) in
  let checksum :=
    if (List.length checksum <? 2)%nat then lit "0" ++ checksum else checksum in
  lit "$" ++ command ++ lit "#" ++ checksum.

(** [IosAppRunnerHelper.encodePath] *)
Definition encodePath (packagePath : jsstring) : jsstring :=
  replaceDot (fun char => toUpperCase (toString16 char)) packagePath.

(** ** Q deferreds

    [Q.defer()] gives a deferred that is settled once: [resolve] and
    [reject] act on a pending deferred and do nothing on a settled one. *)

Module Q.

(** What a promise is rejected with: a string, or an [Error] object
    (made by [new Error(message)] or handed over by the runtime). *)
Inductive reason :=
| Str (s : jsstring)
| Err (message : jsstring).

Inductive deferred (A : Type) :=
| Pending
| Fulfilled (value : A)
| Rejected (r : reason).

Arguments Pending {A}.
Arguments Fulfilled {A} value.
Arguments Rejected {A} r.

Definition resolve {A} (value : A) (d : deferred A) : deferred A :=
  match d with
  | Pending => Fulfilled value
  | _ => d
  end.

Definition reject {A} (r : reason) (d : deferred A) : deferred A :=
  match d with
  | Pending => Rejected r
  | _ => d
  end.

Definition isPending {A} (d : deferred A) : bool :=
  match d with
  | Pending => true
  | _ => false
  end.

Definition isFulfilled {A} (d : deferred A) : bool :=
  match d with
  | Fulfilled _ => true
  | _ => false
  end.

End Q.

Import Q.

(** The error kinds of the specification, as the values the code rejects
    with (the strings [simpleWrapper.ts] maps to messages). *)
Definition LaunchFailed : reason := Str (lit "UnableToLaunchApp").
Definition LaunchTimeout : reason := Str (lit "DeviceLaunchTimeout").
Definition NoDeviceAttached : reason := Err (lit "NoDeviceAttached").
Definition ErrorMountingDiskImage : reason := Err (lit "ErrorMountingDiskImage").

(** ** The launch handshake: [IosAppRunnerHelper.startAppViaDebugger] *)

Module Handshake.

(** The one [net.Socket] of a session; promises are resolved with it. *)
Inductive sock := TheSocket.

(** What the session has done to its socket: the arguments of the
    [socket.write] calls, oldest first; whether [socket.end()] was called;
    whether the callback given to [socket.connect] is still to run. *)
Record Socket := mkSocket {
  written : list jsstring;
  endCalled : bool;
  connectPending : bool
}.

Inductive stepId := Step1 | Step2 | Step3.

(** The variables the handlers of [startAppViaDebugger] close over, the
    timers set with [setTimeout] and not fired yet, and which of the two
    [then] callbacks of the returned chain have run. *)
Record state := mkState {
  encodedPath : jsstring;
  initState : nat;
  endStatus : option (option Z);   (* null, or a number (NaN is [Some None]) *)
  endSignal : option (option Z);
  deferred1 : deferred sock;
  deferred2 : deferred sock;
  deferred3 : deferred sock;
  socket : Socket;
  timer1 : bool;
  timer2 : bool;
  timer3 : bool;
  then1Ran : bool;
  then2Ran : bool
}.

Definition set_initState (n : nat) (st : state) : state :=
  mkState (encodedPath st) n (endStatus st) (endSignal st)
    (deferred1 st) (deferred2 st) (deferred3 st) (socket st)
    (timer1 st) (timer2 st) (timer3 st) (then1Ran st) (then2Ran st).

Definition set_endStatus (v : option (option Z)) (st : state) : state :=
  mkState (encodedPath st) (initState st) v (endSignal st)
    (deferred1 st) (deferred2 st) (deferred3 st) (socket st)
    (timer1 st) (timer2 st) (timer3 st) (then1Ran st) (then2Ran st).

Definition set_endSignal (v : option (option Z)) (st : state) : state :=
  mkState (encodedPath st) (initState st) (endStatus st) v
    (deferred1 st) (deferred2 st) (deferred3 st) (socket st)
    (timer1 st) (timer2 st) (timer3 st) (then1Ran st) (then2Ran st).

Definition set_deferreds (d1 d2 d3 : deferred sock) (st : state) : state :=
  mkState (encodedPath st) (initState st) (endStatus st) (endSignal st)
    d1 d2 d3 (socket st)
    (timer1 st) (timer2 st) (timer3 st) (then1Ran st) (then2Ran st).

Definition set_socket (s : Socket) (st : state) : state :=
  mkState (encodedPath st) (initState st) (endStatus st) (endSignal st)
    (deferred1 st) (deferred2 st) (deferred3 st) s
    (timer1 st) (timer2 st) (timer3 st) (then1Ran st) (then2Ran st).

Definition set_timers (t1 t2 t3 : bool) (st : state) : state :=
  mkState (encodedPath st) (initState st) (endStatus st) (endSignal st)
    (deferred1 st) (deferred2 st) (deferred3 st) (socket st)
    t1 t2 t3 (then1Ran st) (then2Ran st).

Definition set_thenRan (r1 r2 : bool) (st : state) : state :=
  mkState (encodedPath st) (initState st) (endStatus st) (endSignal st)
    (deferred1 st) (deferred2 st) (deferred3 st) (socket st)
    (timer1 st) (timer2 st) (timer3 st) r1 r2.

Definition deferredOf (n : stepId) (st : state) : deferred sock :=
  match n with
  | Step1 => deferred1 st
  | Step2 => deferred2 st
  | Step3 => deferred3 st
  end.

Definition timerOf (n : stepId) (st : state) : bool :=
  match n with
  | Step1 => timer1 st
  | Step2 => timer2 st
  | Step3 => timer3 st
  end.

(** [socket.write(s)] *)
Definition socketWrite (s : jsstring) (st : state) : state :=
  let k := socket st in
  set_socket (mkSocket (written k ++ [s]) (endCalled k) (connectPending k)) st.

(** [socket.end()] *)
Definition socketEnd (st : state) : state :=
  let k := socket st in
  set_socket (mkSocket (written k) true (connectPending k)) st.

(** [deferredN.resolve(socket)] *)
Definition resolveStep (n : stepId) (st : state) : state :=
  match n with
  | Step1 => set_deferreds (resolve TheSocket (deferred1 st)) (deferred2 st) (deferred3 st) st
  | Step2 => set_deferreds (deferred1 st) (resolve TheSocket (deferred2 st)) (deferred3 st) st
  | Step3 => set_deferreds (deferred1 st) (deferred2 st) (resolve TheSocket (deferred3 st)) st
  end.

(** [deferredN.reject(r)] *)
Definition rejectStep (n : stepId) (r : reason) (st : state) : state :=
  match n with
  | Step1 => set_deferreds (reject r (deferred1 st)) (deferred2 st) (deferred3 st) st
  | Step2 => set_deferreds (deferred1 st) (reject r (deferred2 st)) (deferred3 st) st
  | Step3 => set_deferreds (deferred1 st) (deferred2 st) (reject r (deferred3 st)) st
  end.

(** [deferred1.reject(r); deferred2.reject(r); deferred3.reject(r);] *)
Definition rejectAll (r : reason) (st : state) : state :=
  rejectStep Step3 r (rejectStep Step2 r (rejectStep Step1 r st)).

(** [setTimeout(function () { deferredN.reject("DeviceLaunchTimeout"); }, appLaunchStepTimeout)] *)
Definition setTimer (n : stepId) (st : state) : state :=
  match n with
  | Step1 => set_timers true (timer2 st) (timer3 st) st
  | Step2 => set_timers (timer1 st) true (timer3 st) st
  | Step3 => set_timers (timer1 st) (timer2 st) true st
  end.

Definition clearTimer (n : stepId) (st : state) : state :=
  match n with
  | Step1 => set_timers false (timer2 st) (timer3 st) st
  | Step2 => set_timers (timer1 st) false (timer3 st) st
  | Step3 => set_timers (timer1 st) (timer2 st) false st
  end.

(** [while (data[0] === "+") { data = data.substring(1); }] *)
Fixpoint stripPlus (data : jsstring) : jsstring :=
  match data with
  | c :: rest => if JS.eqb [c] (lit "+") then stripPlus rest else data
  | [] => []
  end.

(** The ["data"] listener. *)
Definition onData (data : jsstring) (st : state) : state :=
  let data := stripPlus data in
  if charIs data 0 "$" then
    let st := socketWrite (lit "+") st in
    if charIs data 1 "W" then
      let status := parseInt16 (substring data 2 4) in
      socketEnd (set_endStatus (Some status) st)
    else if charIs data 1 "X" then
      let signal := parseInt16 (substring data 2 4) in
      socketEnd (set_endSignal (Some signal) st)
    else if charIs data 1 "T" then
      socketEnd st
    else if JS.eqb (substring data 1 3) (lit "OK") then
      if Nat.eqb (initState st) 1 then resolveStep Step1 st
      else if Nat.eqb (initState st) 2 then resolveStep Step2 st
      else st
    else if charIs data 1 "O" then
      if Nat.eqb (initState st) 3 then
        let st := resolveStep Step3 st in
        set_initState (S (initState st)) st
      else st
    else if charIs data 1 "E" then
      rejectAll LaunchFailed st
    else st
  else st.

(** The ["end"] listener. *)
Definition onEnd (st : state) : state := rejectAll LaunchFailed st.

(** The ["error"] listener; [err] is the runtime's [Error]. *)
Definition onError (err : jsstring) (st : state) : state := rejectAll (Err err) st.

(** The first command: ["A" + encodedPath.length + ",0," + encodedPath]. *)
Definition launchCommand (encodedPath : jsstring) : jsstring :=
  makeGdbCommand
    (lit "A" ++ toString10 (N.of_nat (List.length encodedPath)) ++ lit ",0," ++ encodedPath).

(** The callback given to [socket.connect]. *)
Definition onConnect (st : state) : state :=
  let cmd := launchCommand (encodedPath st) in
  let st := set_initState (S (initState st)) st in
  let st := socketWrite cmd st in
  setTimer Step1 st.

(** The callback of the first [then]: runs once [deferred1] is fulfilled. *)
Definition then1 (st : state) : state :=
  let cmd := makeGdbCommand (lit "Hc0") in
  let st := set_initState (S (initState st)) st in
  let st := socketWrite cmd st in
  setTimer Step2 st.

(** The callback of the second [then]: runs once the promise returned by
    the first callback, [deferred2.promise], is fulfilled. *)
Definition then2 (st : state) : state :=
  let cmd := makeGdbCommand (lit "c") in
  let st := set_initState (S (initState st)) st in
  let st := socketWrite cmd st in
  setTimer Step3 st.

(** What the event loop delivers to the session.  [Tick] is Q running
    the next [then] callback that is due; Q runs a callback in a later
    turn than the [resolve] that made it due. *)
Inductive event :=
| Connect
| Data (data : jsstring)
| End
| Error (err : jsstring)
| Timeout (n : stepId)
| Tick.

(** One [then] callback, if one is due. *)
Definition tick (st : state) : state :=
  if isFulfilled (deferred1 st) then
    if negb (then1Ran st) then then1 (set_thenRan true (then2Ran st) st)
    else if isFulfilled (deferred2 st) && negb (then2Ran st)
    then then2 (set_thenRan (then1Ran st) true st)
    else st
  else st.

(** The handler an event runs.  The connect callback runs once; a timer
    fires once, and only after [setTimeout] has set it. *)
Definition handle (e : event) (st : state) : state :=
  match e with
  | Connect =>
      if connectPending (socket st) then
        let k := socket st in
        onConnect (set_socket (mkSocket (written k) (endCalled k) false) st)
      else st
  | Data data => onData data st
  | End => onEnd st
  | Error err => onError err st
  | Timeout n =>
      if timerOf n st then rejectStep n LaunchTimeout (clearTimer n st) else st
  | Tick => tick st
  end.

Definition run (evs : list event) (st : state) : state :=
  fold_left (fun st e => handle e st) evs st.

(** Under Node, Q schedules its callbacks with [process.nextTick]: they
    run when the current handler returns, before the next event. *)
Definition flush (st : state) : state := tick (tick st).

Definition runNode (evs : list event) (st : state) : state :=
  fold_left (fun st e => flush (handle e st)) evs st.

(** The state [startAppViaDebugger] leaves behind when it returns. *)
Definition startAppViaDebugger (portNumber : N) (packagePath : jsstring)
    (appLaunchStepTimeout : N) : state :=
  mkState (encodePath packagePath) 0 None None Pending Pending Pending
    (mkSocket [] false true) false false false false false.

(** The promise [startAppViaDebugger] returns,
    [deferred1.promise.then(...).then(...)]: a rejection passes down the
    chain; a fulfilment waits for the callback that hands over the next
    deferred's promise. *)
Definition promise (st : state) : deferred sock :=
  match deferred1 st with
  | Fulfilled _ =>
      if then1Ran st then
        match deferred2 st with
        | Fulfilled _ => if then2Ran st then deferred3 st else Pending
        | d => d
        end
      else Pending
  | d => d
  end.

(** The handshake steps of the specification, read off [initState]. *)
Inductive HandshakeStep :=
| AwaitingLaunchAck
| AwaitingThreadAck
| AwaitingContinueAck
| Monitoring.

Definition handshakeStep (st : state) : option HandshakeStep :=
  match initState st with
  | 1%nat => Some AwaitingLaunchAck
  | 2%nat => Some AwaitingThreadAck
  | 3%nat => Some AwaitingContinueAck
  | 4%nat => Some Monitoring
  | _ => None
  end.

(** The commands among the writes: everything but the ["+"] acknowledgements. *)
Definition commands (st : state) : list jsstring :=
  filter (fun s => negb (JS.eqb s (lit "+"))) (written (socket st)).

(** How many unresolved expectations step [n] has. *)
Definition unresolved (n : stepId) (st : state) : nat :=
  if isPending (deferredOf n st) then 1 else 0.

End Handshake.

(** ** Mounting the developer image: [IosAppRunnerHelper.mountDeveloperImage] *)

Module Mount.

(** The variables of the callback that spawns [ideviceimagemounter]. *)
Record state := mkState {
  stdout : jsstring;
  deferred : Q.deferred unit
}.

(** The events of the spawned process.  The exit code of ["close"] is
    [None] when the process was ended by a signal ([null] in Node). *)
Inductive event :=
| StdoutData (data : jsstring)
| Close (code : option Z)
| Error (err : jsstring).

Definition isNonZero (code : option Z) : bool :=
  match code with
  | Some 0%Z => false
  | _ => true
  end.

Definition contains (hay : jsstring) (needle : string) : bool :=
  negb (Z.eqb (indexOf hay (lit needle)) (-1)).

(** The ["close"] listener. *)
Definition onClose (code : option Z) (st : state) : state :=
  if isNonZero code then
    let st :=
      if contains (stdout st) "Error:" then
        mkState (stdout st) (resolve tt (deferred st))
      else if contains (stdout st) "No device found, is it plugged in?" then
        mkState (stdout st) (reject NoDeviceAttached (deferred st))
      else st in
    mkState (stdout st) (reject ErrorMountingDiskImage (deferred st))
  else
    mkState (stdout st) (resolve tt (deferred st)).

Definition handle (e : event) (st : state) : state :=
  match e with
  | StdoutData data => mkState (stdout st ++ data) (deferred st)
  | Close code => onClose code st
  | Error err => mkState (stdout st) (reject (Err err) (deferred st))
  end.

Definition run (evs : list event) (st : state) : state :=
  fold_left (fun st e => handle e st) evs st.

(** The state when the callback has spawned the utility and returned. *)
Definition spawned : state := mkState [] Pending.

(** The promise [mountDeveloperImage] returns, [getDiskImage().then(...)],
    given how [getDiskImage] settled and what the utility did. *)
Definition mountDeveloperImage (getDiskImage : Q.deferred jsstring)
    (evs : list event) : Q.deferred unit :=
  match getDiskImage with
  | Fulfilled _ => deferred (run evs spawned)
  | Rejected r => Rejected r
  | Pending => Pending
  end.

End Mount.

(** ** The debug proxy: [SharedState] and [IosAppRunnerHelper.startDebugProxy] *)

Module Proxy.

(** A [ChildProcess] object, told apart by its process id. *)
Definition ChildProcess := N.

(** [global.tacoRemoteLib]: absent, or an object whose one field holds a
    process or nothing. *)
Definition SharedStateGlobal := option (option ChildProcess).

(** The getter [SharedState.nativeDebuggerProxyInstance]. *)
Definition nativeDebuggerProxyInstance (g : SharedStateGlobal) : option ChildProcess :=
  match g with
  | Some lib => lib
  | None => None
  end.

(** The setter [SharedState.nativeDebuggerProxyInstance = instance]. *)
Definition set_nativeDebuggerProxyInstance (instance : option ChildProcess)
    (g : SharedStateGlobal) : SharedStateGlobal :=
  match g with
  | Some _ => Some instance
  | None => Some instance
  end.

Record state := mkState {
  global : SharedStateGlobal;
  killed : list (ChildProcess * jsstring);   (* [kill(signal)] calls *)
  mounted : Q.deferred unit;                 (* how [mountDeveloperImage] settled *)
  deferred : Q.deferred (option ChildProcess);
  errorListener : bool;                      (* the [once("error")] listener is set *)
  delayPending : bool                        (* [Q.delay(200)] has not elapsed *)
}.

(** [startDebugProxy(proxyPort)] up to the point where it waits for the
    spawned process: [mountResult] is how the mount settled and [child]
    the process [child_process.spawn] returns. *)
Definition startDebugProxy (proxyPort : N) (mountResult : Q.deferred unit)
    (child : ChildProcess) (g : SharedStateGlobal) : state :=
  let '(g, killed) :=
    match nativeDebuggerProxyInstance g with
    | Some old => (set_nativeDebuggerProxyInstance None g, [(old, lit "SIGHUP")])
    | None => (g, [])
    end in
  match mountResult with
  | Fulfilled _ =>
      mkState (set_nativeDebuggerProxyInstance (Some child) g) killed
        mountResult Pending true true
  | _ => mkState g killed mountResult Pending false false
  end.

(** [SpawnError] is the ["error"] event of the spawned process; [Delay]
    the end of the 200ms of [Q.delay(200)]. *)
Inductive event :=
| SpawnError (err : jsstring)
| Delay.

Definition handle (e : event) (st : state) : state :=
  match e with
  | SpawnError err =>
      if errorListener st then
        mkState (global st) (killed st) (mounted st)
          (reject (Err err) (deferred st)) false (delayPending st)
      else st
  | Delay =>
      if delayPending st then
        mkState (global st) (killed st) (mounted st)
          (resolve (nativeDebuggerProxyInstance (global st)) (deferred st))
          (errorListener st) false
      else st
  end.

Definition run (evs : list event) (st : state) : state :=
  fold_left (fun st e => handle e st) evs st.

(** The promise [startDebugProxy] returns, [mountDeveloperImage().then(...)]. *)
Definition promise (st : state) : Q.deferred (option ChildProcess) :=
  match mounted st with
  | Fulfilled _ => deferred st
  | Rejected r => Rejected r
  | Pending => Pending
  end.

(** The specification's [ProxySpawnFailed]: the promise is rejected with
    the error the spawned process reported, handed on as it is. *)
Definition ProxySpawnFailed (err : jsstring) : reason := Err err.

End Proxy.

(** ** The specification's wording of the framer and the encoder *)

(** An uppercase hexadecimal digit: 0-9, A-F. *)
Definition upperHexDigit (d : N) : N :=
  if d <? 10 then 48 + d else 55 + d.

Definition isUpperHexDigit (c : N) : bool :=
  ((48 <=? c) && (c <=? 57)) || ((65 <=? c) && (c <=? 70)).

(** The sum of the character codes of a string. *)
Definition charCodeSum (c : jsstring) : N := fold_right N.add 0 c.

(** The sum modulo 256 as two uppercase hexadecimal digits. *)
Definition checksum (c : jsstring) : jsstring :=
  let s := charCodeSum c mod 256 in
  [upperHexDigit (s / 16); upperHexDigit (s mod 16)].

(** ["$" + c + "#" + CC] *)
Definition frame (c : jsstring) : jsstring :=
  lit "$" ++ c ++ lit "#" ++ checksum c.

(** Every character as the uppercase hexadecimal text of its code. *)
Definition hexEncode (s : jsstring) : jsstring :=
  flat_map (fun c => toUpperCase (toString16 c)) s.

(** [needle] occurs in [hay] as a substring. *)
Definition occurs (needle hay : jsstring) : Prop :=
  exists pre post, hay = pre ++ needle ++ post.

(** ** Replies of the peer and what settles an expectation *)

Import Handshake.

(** [k] acknowledgement characters. *)
Definition pluses (k : nat) : jsstring := repeat 43 k.

(** The reply [$OK#9A]. *)
Definition okFrame : jsstring := makeGdbCommand (lit "OK").

(** An output reply: [O] and the output as hexadecimal text. *)
Definition outputFrame (payload : jsstring) : jsstring :=
  makeGdbCommand (lit "O" ++ payload).

(** An error reply: [E] and the error code. *)
Definition errorFrame (code : jsstring) : jsstring :=
  makeGdbCommand (lit "E" ++ code).

(** The replies that report the end or a stop of the process. *)
Inductive exitMarker := ExitedW | SignalledX | StoppedT.

Definition markerText (m : exitMarker) : jsstring :=
  match m with
  | ExitedW => lit "W"
  | SignalledX => lit "X"
  | StoppedT => lit "T"
  end.

Definition exitFrame (m : exitMarker) (rest : jsstring) : jsstring :=
  makeGdbCommand (markerText m ++ rest).

Definition isHexChar (c : N) : bool :=
  ((48 <=? c) && (c <=? 57)) || ((65 <=? c) && (c <=? 70))
  || ((97 <=? c) && (c <=? 102)).

(** How the ["data"] listener reads what it is given: the branch of its
    [if] chain that is taken. *)
Inductive reply :=
| ReplyW | ReplyX | ReplyT | ReplyOK | ReplyO | ReplyE | ReplyOther | NoFrame.

Definition classify (data : jsstring) : reply :=
  let data := stripPlus data in
  if charIs data 0 "$" then
    if charIs data 1 "W" then ReplyW
    else if charIs data 1 "X" then ReplyX
    else if charIs data 1 "T" then ReplyT
    else if JS.eqb (substring data 1 3) (lit "OK") then ReplyOK
    else if charIs data 1 "O" then ReplyO
    else if charIs data 1 "E" then ReplyE
    else ReplyOther
  else NoFrame.

(** The five ways the code settles the expectation of a step. *)
Inductive attempt :=
| MatchingReply
| ErrorReply
| ConnectionEnd
| ConnectionError (err : jsstring)
| TimerFired.

Definition settle (a : attempt) (d : deferred sock) : deferred sock :=
  match a with
  | MatchingReply => resolve TheSocket d
  | ErrorReply => reject LaunchFailed d
  | ConnectionEnd => reject LaunchFailed d
  | ConnectionError err => reject (Err err) d
  | TimerFired => reject LaunchTimeout d
  end.

Definition outcome (a : attempt) : deferred sock :=
  match a with
  | MatchingReply => Fulfilled TheSocket
  | ErrorReply => Rejected LaunchFailed
  | ConnectionEnd => Rejected LaunchFailed
  | ConnectionError err => Rejected (Err err)
  | TimerFired => Rejected LaunchTimeout
  end.

(** The same attempts on the expectation of step [n] of a session. *)
Definition attemptOn (n : stepId) (a : attempt) (st : state) : state :=
  match a with
  | MatchingReply => resolveStep n st
  | ErrorReply => rejectStep n LaunchFailed st
  | ConnectionEnd => rejectStep n LaunchFailed st
  | ConnectionError err => rejectStep n (Err err) st
  | TimerFired => rejectStep n LaunchTimeout st
  end.

Definition attemptAll (n : stepId) (l : list attempt) (st : state) : state :=
  fold_left (fun st a => attemptOn n a st) l st.

(** What an event makes the session write. *)
Definition sent (e : event) (st : state) : list jsstring :=
  skipn (List.length (written (socket st))) (written (socket (handle e st))).

(** Step [m] comes before step [n]. *)
Definition earlier (m n : stepId) : bool :=
  match m, n with
  | Step1, Step2 | Step1, Step3 | Step2, Step3 => true
  | _, _ => false
  end.

(** The states a session goes through with a well-behaved peer, for an
    encoded path [ep]: after the launch command, after [Hc0], after [c],
    and once the first output has arrived. *)
Definition awaitingLaunchAck (ep : jsstring) : state :=
  mkState ep 1 None None Pending Pending Pending
    (mkSocket [launchCommand ep] false false) true false false false false.

Definition awaitingThreadAck (ep : jsstring) : state :=
  mkState ep 2 None None (Fulfilled TheSocket) Pending Pending
    (mkSocket [launchCommand ep; lit "+"; makeGdbCommand (lit "Hc0")] false false)
    true true false true false.

Definition awaitingContinueAck (ep : jsstring) : state :=
  mkState ep 3 None None (Fulfilled TheSocket) (Fulfilled TheSocket) Pending
    (mkSocket [launchCommand ep; lit "+"; makeGdbCommand (lit "Hc0"); lit "+";
               makeGdbCommand (lit "c")] false false)
    true true true true true.

Definition monitoring (ep : jsstring) : state :=
  mkState ep 4 None None
    (Fulfilled TheSocket) (Fulfilled TheSocket) (Fulfilled TheSocket)
    (mkSocket [launchCommand ep; lit "+"; makeGdbCommand (lit "Hc0"); lit "+";
               makeGdbCommand (lit "c"); lit "+"] false false)
    true true true true true.

(** What holds of every state a session goes through: [initState] counts
    the commands written, each [then] callback has run only after the
    deferred before it was fulfilled, a timer is set only by the code
    that sends its step's command, and the steps settle in order. *)
Definition Inv (st : state) : Prop :=
  commands st =
    firstn (Nat.min (initState st) 3)
      [launchCommand (encodedPath st); makeGdbCommand (lit "Hc0");
       makeGdbCommand (lit "c")]
  /\ (if connectPending (socket st) then initState st = 0%nat
      else if negb (then1Ran st) then initState st = 1%nat
      else if negb (then2Ran st) then initState st = 2%nat
      else initState st = 3%nat \/ initState st = 4%nat)
  /\ (then1Ran st = true -> isFulfilled (deferred1 st) = true)
  /\ (then2Ran st = true ->
      then1Ran st = true /\ isFulfilled (deferred2 st) = true)
  /\ (isFulfilled (deferred3 st) = true -> initState st = 4%nat)
  /\ (isFulfilled (deferred2 st) = true -> then1Ran st = true)
  /\ (isFulfilled (deferred1 st) = true -> connectPending (socket st) = false)
  /\ (timer2 st = true -> then1Ran st = true)
  /\ (timer3 st = true -> then2Ran st = true)
  /\ (isPending (deferred1 st) = true -> isPending (deferred2 st) = true)
  /\ (isPending (deferred2 st) = true -> isPending (deferred3 st) = true).

(** ** More of the string library: [trim], [split], a regular expression *)

Module JSText.

(** [s.trim()]: white space and line terminators off both ends. *)
Definition trimEnd (s : jsstring) : jsstring := rev (trimStart (rev s)).

Definition trim (s : jsstring) : jsstring := trimEnd (trimStart s).

(** [s.split("\n")[0]]: what comes before the first line feed. *)
Fixpoint firstLine (s : jsstring) : jsstring :=
  match s with
  | [] => []
  | c :: r => if c =? 10 then [] else c :: firstLine r
  end.

Definition isDigit (c : N) : bool := (48 <=? c) && (c <=? 57).

Fixpoint dropDigits (s : jsstring) : jsstring :=
  match s with
  | c :: r => if isDigit c then dropDigits r else s
  | [] => []
  end.

(** [/^\/tmp\/[0-9]+\.ideviceinstaller$/.test(s)] *)
Definition testInstalledAppsFile (s : jsstring) : bool :=
  if startsWith (lit "/tmp/") s then
    match skipn 5 s with
    | c :: r =>
        isDigit c && JS.eqb (dropDigits (c :: r)) (lit ".ideviceinstaller")
    | [] => false
    end
  else false.

End JSText.

Import JSText.

(** How a [child_process.exec] call ended: with an error, whose [code]
    is a string such as ["ENOENT"] or something else ([None]), or with
    the two outputs. *)
Inductive execOutcome :=
| ExecError (code : option jsstring) (err : jsstring)
| ExecOk (stdout stderr : jsstring).

Definition IDeviceInstallerNotFound : reason := Err (lit "IDeviceInstallerNotFound").
Definition WrongInstalledAppsFile : reason := Err (lit "WrongInstalledAppsFile").
Definition PackageNotInstalled : reason := Err (lit "PackageNotInstalled").
Definition FailedGetDeviceInfo : reason := Err (lit "FailedGetDeviceInfo").
Definition FailedFindDeveloperDiskImage : reason :=
  Err (lit "FailedFindDeveloperDiskImage").

(** ** Finding the installed application: [IosAppRunnerHelper.startApp] *)

Module StartApp.

(** An entry of the parsed list of installed applications; a field is
    [None] when the entry has none, or one that is not a string. *)
Record installedApp := mkApp {
  CFBundleIdentifier : option jsstring;
  Path : option jsstring
}.

Definition idIs (a : installedApp) (packageId : jsstring) : bool :=
  match CFBundleIdentifier a with
  | Some id => JS.eqb id packageId
  | None => false
  end.

(** The [for] loop: [Some] of the [Path] it returns, [None] when it runs
    to the end. *)
Fixpoint findPath (list : list installedApp) (packageId : jsstring)
  : option (option jsstring) :=
  match list with
  | [] => None
  | a :: rest =>
      if idIs a packageId then Some (Path a) else findPath rest packageId
  end.

(** What the chain up to the last [then] gives, and the files removed
    with [fs.unlink].  [parsed] is what reading and parsing the file
    gives: the list, or the error thrown. *)
Record lookup := mkLookup {
  found : reason + option jsstring;
  unlinked : list jsstring
}.

Definition lookupPath (exec : execOutcome) (parsed : reason + list installedApp)
    (packageId : jsstring) : lookup :=
  match exec with
  | ExecError code err =>
      match code with
      | Some c =>
          if JS.eqb c (lit "ENOENT") then mkLookup (inl IDeviceInstallerNotFound) []
          else mkLookup (inl (Err err)) []
      | None => mkLookup (inl (Err err)) []
      end
  | ExecOk stdout stderr =>
      let filename := trim stdout in
      if negb (testInstalledAppsFile filename) then
        mkLookup (inl WrongInstalledAppsFile) []
      else
        match parsed with
        | inl thrown => mkLookup (inl thrown) []
        | inr list =>
            match findPath list packageId with
            | Some path => mkLookup (inr path) [filename]
            | None => mkLookup (inl PackageNotInstalled) [filename]
            end
        end
  end.

(** How [startApp] goes on: it fails, or calls [startAppViaDebugger]
    with the path found; with no [Path] in the entry, [encodePath] is
    called on [undefined] and throws. *)
Inductive launch :=
| NotLaunched (r : reason)
| PathMissing
| Launched (st : Handshake.state).

Definition startApp (packageId : jsstring) (proxyPort appLaunchStepTimeout : N)
    (exec : execOutcome) (parsed : reason + list installedApp) : launch :=
  match found (lookupPath exec parsed packageId) with
  | inl r => NotLaunched r
  | inr None => PathMissing
  | inr (Some path) =>
      Launched (startAppViaDebugger proxyPort path appLaunchStepTimeout)
  end.

End StartApp.

(** ** Finding the disk image: [IosAppRunnerHelper.getDiskImage] *)

Module DiskImage.

(** [ideviceinfo -s -k ProductVersion]: the first three characters. *)
Definition versionInfo (exec : execOutcome) : deferred jsstring :=
  match exec with
  | ExecOk stdout stderr => Fulfilled (substring (trim stdout) 0 3)
  | ExecError _ _ => Rejected FailedGetDeviceInfo
  end.

(** [xcrun -sdk iphoneos --show-sdk-platform-path] *)
Definition pathInfo (exec : execOutcome) : deferred jsstring :=
  match exec with
  | ExecOk stdout stderr => Fulfilled (trim stdout)
  | ExecError _ err => Rejected (Err err)
  end.

(** The arguments [find] is spawned with. *)
Definition findArguments (sdkpath version : jsstring) : list jsstring :=
  [sdkpath; lit "-path"; lit "*" ++ version ++ lit "*"; lit "-name";
   lit "DeveloperDiskImage.dmg"].

Inductive event :=
| FindData (data : jsstring)
| FindClose (code : option Z).

(** The listeners on the spawned [find]. *)
Definition handle (e : event) (d : deferred jsstring) : deferred jsstring :=
  match e with
  | FindData data =>
      let path := trim (firstLine data) in
      if JS.eqb path [] then reject FailedFindDeveloperDiskImage d
      else resolve path d
  | FindClose code => reject FailedFindDeveloperDiskImage d
  end.

Definition run (evs : list event) (d : deferred jsstring) : deferred jsstring :=
  fold_left (fun d e => handle e d) evs d.

(** The promise [getDiskImage] returns: [Q.all] of the two lookups, then
    the search.  When both lookups fail, [Q.all] takes the failure that
    came first. *)
Definition getDiskImage (version sdk : execOutcome) (versionFailsFirst : bool)
    (evs : list event) : deferred jsstring :=
  match versionInfo version, pathInfo sdk with
  | Fulfilled _, Fulfilled _ => run evs Pending
  | Rejected r, Fulfilled _ => Rejected r
  | Fulfilled _, Rejected r => Rejected r
  | Rejected r1, Rejected r2 =>
      if versionFailsFirst then Rejected r1 else Rejected r2
  | _, _ => Pending
  end.

End DiskImage.

(** ** The wrapper with English messages: [simpleWrapper.ts] *)

Module Wrapper.

Definition errorMap : list (string * string) :=
  [("IDeviceInstallerNotFound"%string,
    "Unable to find ideviceinstaller. Please 'brew install ideviceinstaller' and try again."%string);
   ("WrongInstalledAppsFile"%string, "Unable to list installed applications on device."%string);
   ("PackageNotInstalled"%string, "Application not installed on device."%string);
   ("UnableToLaunchApp"%string,
    "Unable to launch application on device due to a communication error."%string);
   ("DeviceLaunchTimeout"%string, "Timed out launching application. Is the device locked?"%string);
   ("NoDeviceAttached"%string, "Unable to find device. Is the device plugged in?"%string);
   ("ErrorMountingDiskImage"%string, "Unable to mount developer disk image"%string);
   ("FailedGetDeviceInfo"%string, "Unable to get device OS version"%string);
   ("FailedFindDeveloperDiskImage"%string, "Unable to find developer disk image"%string)].

(** The members an object literal inherits from [Object.prototype]. *)
Definition objectPrototypeKeys : list string :=
  ["constructor"%string; "__defineGetter__"%string; "__defineSetter__"%string; "hasOwnProperty"%string;
   "__lookupGetter__"%string; "__lookupSetter__"%string; "isPrototypeOf"%string;
   "propertyIsEnumerable"%string; "toString"%string; "valueOf"%string; "__proto__"%string;
   "toLocaleString"%string].

(** What [errorMap[key]] evaluates to: a text of the table, a member of
    [Object.prototype] (a function or an object), or [undefined]. *)
Inductive value :=
| Text (s : jsstring)
| Inherited (key : jsstring)
| Undefined.

Fixpoint own (table : list (string * string)) (key : jsstring) : option jsstring :=
  match table with
  | [] => None
  | (k, v) :: rest => if JS.eqb (lit k) key then Some (lit v) else own rest key
  end.

Definition get (key : jsstring) : value :=
  match own errorMap key with
  | Some v => Text v
  | None =>
      if existsb (fun k => JS.eqb (lit k) key) objectPrototypeKeys
      then Inherited key else Undefined
  end.

Definition truthy (v : value) : bool :=
  match v with
  | Text s => negb (JS.eqb s [])
  | Inherited _ => true
  | Undefined => false
  end.

(** What [defaultError] throws: the string it was given; the [Error] it
    was given, with its message; [AssignOnString] stands for assigning
    [message] on a string, which the table never lets happen. *)
Inductive thrown :=
| ThrownString (s : jsstring)
| ThrownError (message : value)
| AssignOnString (s : jsstring).

(** [defaultError(err)].  The [message] of a string is [undefined], which
    as a key reads ["undefined"]. *)
Definition defaultError (err : reason) : thrown :=
  match err with
  | Err message =>
      if truthy (get message) then ThrownError (get message)
      else ThrownError (Text message)
  | Str s =>
      if truthy (get (lit "undefined")) then AssignOnString s
      else ThrownString s
  end.

Inductive outcome (A : Type) :=
| Waiting
| Returned (v : A)
| Threw (t : thrown).

Arguments Waiting {A}.
Arguments Returned {A} v.
Arguments Threw {A} t.

(** [promise.catch(defaultError)] *)
Definition catchDefaultError {A} (p : deferred A) : outcome A :=
  match p with
  | Pending => Waiting
  | Fulfilled v => Returned v
  | Rejected r => Threw (defaultError r)
  end.

(** The default of [appLaunchStepTimeout]. *)
Definition stepTimeout (appLaunchStepTimeout : option N) : N :=
  match appLaunchStepTimeout with
  | Some t => t
  | None => 5000
  end.

(** The wrapper's [startAppViaDebugger], after the events [evs]. *)
Definition startAppViaDebugger (portNumber : N) (packagePath : jsstring)
    (appLaunchStepTimeout : option N) (evs : list Handshake.event)
  : outcome sock :=
  catchDefaultError
    (Handshake.promise
       (Handshake.runNode evs
          (Handshake.startAppViaDebugger portNumber packagePath
             (stepTimeout appLaunchStepTimeout)))).

(** The wrapper's [startApp], after the events [evs]; [typeError] is the
    message of the [TypeError] the engine throws for a missing [Path]. *)
Definition startApp (packageId : jsstring) (proxyPort : N)
    (appLaunchStepTimeout : option N) (exec : execOutcome)
    (parsed : reason + list StartApp.installedApp)
    (typeError : jsstring) (evs : list Handshake.event) : outcome sock :=
  match StartApp.startApp packageId proxyPort (stepTimeout appLaunchStepTimeout)
          exec parsed with
  | StartApp.NotLaunched r => Threw (defaultError r)
  | StartApp.PathMissing => Threw (defaultError (Err typeError))
  | StartApp.Launched st =>
      catchDefaultError (Handshake.promise (Handshake.runNode evs st))
  end.

(** The wrapper's [startDebugProxy] hands the promise on as it is. *)
Definition startDebugProxy (st : Proxy.state)
  : deferred (option Proxy.ChildProcess) :=
  Proxy.promise st.

End Wrapper.

(** ** More of what holds of every state of a session *)

(** A step whose command is out and whose expectation is unresolved has
    its timer running. *)
Definition TimerInv (st : state) : Prop :=
  (connectPending (socket st) = false -> isPending (deferred1 st) = true ->
   timer1 st = true)
  /\ (then1Ran st = true -> isPending (deferred2 st) = true -> timer2 st = true)
  /\ (then2Ran st = true -> isPending (deferred3 st) = true -> timer3 st = true).

(** No [then] callback is due. *)
Definition quiescent (st : state) : bool :=
  negb (isFulfilled (deferred1 st) && negb (then1Ran st))
  && negb (isFulfilled (deferred1 st) && then1Ran st
           && isFulfilled (deferred2 st) && negb (then2Ran st)).

(** The step a session waits for, if any: the first unresolved one. *)
Definition awaited (st : state) : option stepId :=
  if isPending (deferred1 st) then Some Step1
  else if isPending (deferred2 st) then Some Step2
  else if isPending (deferred3 st) then Some Step3
  else None.

(** The reply that fulfils the expectation of a step. *)
Definition fulfilling (n : stepId) : reply :=
  match n with
  | Step3 => ReplyO
  | _ => ReplyOK
  end.

Definition stepNumber (n : stepId) : nat :=
  match n with
  | Step1 => 1
  | Step2 => 2
  | Step3 => 3
  end.

(** The characters with codes 16 to 255: their hexadecimal text has two
    digits, and none of them is a line terminator. *)
Definition twoDigitChars (s : jsstring) : bool :=
  forallb (fun c => (16 <=? c) && (c <? 256)) s.

(** * Properties *)

(** ** JavaScript strings *)

Lemma eqb_eq (a b : jsstring) : JS.eqb a b = true <-> a = b.
Proof.
  unfold JS.eqb. destruct (list_eq_dec N.eq_dec a b); split; congruence.
Qed.

Lemma eqb_refl (a : jsstring) : JS.eqb a a = true.
Proof. apply eqb_eq. reflexivity. Qed.

Lemma toDigits_eq (radix n : N) (acc : jsstring) :
  toDigits radix n acc =
  if (n <? radix) || (radix <? 2) then digitChar n :: acc
  else toDigits radix (n / radix) (digitChar (n mod radix) :: acc).
Proof.
  funelim (toDigits radix n acc);
    match goal with E : (_ || _) = _ |- _ => rewrite E end; reflexivity.
Qed.

Lemma toString16_small (n : N) : n < 16 -> toString16 n = [digitChar n].
Proof.
  intros Hn. unfold toString16. rewrite toDigits_eq.
  apply N.ltb_lt in Hn. rewrite Hn. reflexivity.
Qed.

Lemma toString16_byte (n : N) :
  16 <= n -> n < 256 ->
  toString16 n = [digitChar (n / 16); digitChar (n mod 16)].
Proof.
  intros Hlo Hhi. unfold toString16. rewrite toDigits_eq.
  apply N.ltb_ge in Hlo. rewrite Hlo. cbn [orb N.ltb N.compare Pos.compare Pos.compare_cont].
  rewrite toDigits_eq.
  assert (Hq : n / 16 < 16) by (apply N.Div0.div_lt_upper_bound; lia).
  apply N.ltb_lt in Hq. rewrite Hq. reflexivity.
Qed.

Lemma upperUnit_digitChar (d : N) :
  d < 16 -> upperUnit (digitChar d) = upperHexDigit d.
Proof.
  intros Hd. unfold upperUnit, digitChar, upperHexDigit.
  destruct (d <? 10) eqn:E.
  - apply N.ltb_lt in E.
    replace ((97 <=? 48 + d) && (48 + d <=? 122)) with false; [reflexivity|].
    symmetry. apply andb_false_iff. left. apply N.leb_gt. lia.
  - apply N.ltb_ge in E.
    replace ((97 <=? 87 + d) && (87 + d <=? 122)) with true; [lia|].
    symmetry. apply andb_true_iff. split; apply N.leb_le; lia.
Qed.

Lemma upperHexDigit_ok (d : N) : d < 16 -> isUpperHexDigit (upperHexDigit d) = true.
Proof.
  intros Hd. unfold isUpperHexDigit, upperHexDigit.
  destruct (d <? 10) eqn:E.
  - apply N.ltb_lt in E. apply orb_true_iff. left.
    apply andb_true_iff. split; apply N.leb_le; lia.
  - apply N.ltb_ge in E. apply orb_true_iff. right.
    apply andb_true_iff. split; apply N.leb_le; lia.
Qed.

(** The checksum text the code builds: [toString(16)], upper-cased and
    padded, is the two-digit rendering. *)
Lemma padded_hex_byte (n : N) :
  n < 256 ->
  (let t := toUpperCase (toString16 n) in
   if (List.length t <? 2)%nat then lit "0" ++ t else t)
  = [upperHexDigit (n / 16); upperHexDigit (n mod 16)].
Proof.
  intros Hn. destruct (N.lt_ge_cases n 16) as [Hs | Hb].
  - rewrite (toString16_small n Hs). cbn [toUpperCase map List.length Nat.ltb Nat.leb].
    rewrite N.div_small, N.mod_small by assumption.
    rewrite upperUnit_digitChar by assumption. reflexivity.
  - rewrite (toString16_byte n Hb Hn). cbn [toUpperCase map List.length Nat.ltb Nat.leb].
    rewrite !upperUnit_digitChar; [reflexivity | |].
    + apply N.mod_lt. lia.
    + apply N.Div0.div_lt_upper_bound. lia.
Qed.

Lemma sumCharCodes_from (c : jsstring) (a : N) :
  fold_left (fun stringSum x => stringSum + x) c a = a + charCodeSum c.
Proof.
  revert a. induction c as [| x c IH]; intros a; simpl.
  - lia.
  - rewrite IH. lia.
Qed.

Lemma sumCharCodes_spec (c : jsstring) : sumCharCodes c = charCodeSum c.
Proof. unfold sumCharCodes. rewrite sumCharCodes_from. lia. Qed.

(** C6.  For every command string [c], [makeGdbCommand c] is
    ["$" + c + "#" + CC], where [CC] is the sum of the character codes of
    [c] modulo 256 written as exactly two uppercase hexadecimal digits,
    zero-padded on the left. *)
Theorem makeGdbCommand_frame (c : jsstring) :
  makeGdbCommand c = lit "$" ++ c ++ lit "#" ++ checksum c
  /\ checksum c =
       [upperHexDigit ((charCodeSum c mod 256) / 16);
        upperHexDigit ((charCodeSum c mod 256) mod 16)]
  /\ List.length (checksum c) = 2%nat
  /\ forallb isUpperHexDigit (checksum c) = true.
Proof.
  assert (Hlt : charCodeSum c mod 256 < 256) by (apply N.mod_lt; lia).
  repeat split.
  - unfold makeGdbCommand. rewrite sumCharCodes_spec.
    pose proof (padded_hex_byte _ Hlt) as P. cbv zeta in P. cbv zeta.
    rewrite P. reflexivity.
  - unfold checksum. cbn [forallb].
    rewrite !upperHexDigit_ok; [reflexivity | |].
    + apply N.mod_lt. lia.
    + apply N.Div0.div_lt_upper_bound. lia.
Qed.

Lemma encodePath_without_terminators (s : jsstring) :
  forallb (fun c => negb (isLineTerminator c)) s = true ->
  encodePath s = hexEncode s.
Proof.
  unfold encodePath, replaceDot, hexEncode.
  induction s as [| c s IH]; simpl; intros H; [reflexivity|].
  apply andb_true_iff in H. destruct H as [Hc Hs].
  apply negb_true_iff in Hc. rewrite Hc, (IH Hs). reflexivity.
Qed.

(** C7.  On the path ["a\nb"] the line feed is left as it is:
    [encodePath] gives ["61\n62"], whereas encoding every character
    gives ["61A62"].  The [.] of the regular expression skips line
    terminators. *)
Theorem encodePath_keeps_line_feed :
  encodePath [97; 10; 98] = [54; 49; 10; 54; 50]
  /\ hexEncode [97; 10; 98] = lit "61A62"
  /\ encodePath [97; 10; 98] <> hexEncode [97; 10; 98].
Proof.
  split; [reflexivity|]. split; [reflexivity|].
  intros H. vm_compute in H. discriminate H.
Qed.

(** ** [indexOf] finds a substring exactly when there is one *)

Lemma startsWith_prefix (needle hay : jsstring) :
  startsWith needle hay = true <-> exists post, hay = needle ++ post.
Proof.
  revert hay. induction needle as [| a n IH]; intros hay; simpl.
  - split; [intros _; exists hay; reflexivity | reflexivity].
  - destruct hay as [| b h].
    + split; [discriminate | intros [post H]; discriminate H].
    + rewrite andb_true_iff, N.eqb_eq, IH. split.
      * intros [-> [post ->]]. exists post. reflexivity.
      * intros [post H]. injection H as -> ->. split; [reflexivity | eauto].
Qed.

Lemma occurs_cons (needle : jsstring) (b : N) (h : jsstring) :
  occurs needle (b :: h) <->
  (exists post, b :: h = needle ++ post) \/ occurs needle h.
Proof.
  unfold occurs. split.
  - intros [[| p pre] [post H]].
    + left. exists post. exact H.
    + right. injection H as -> ->. exists pre, post. reflexivity.
  - intros [[post H] | [pre [post H]]].
    + exists [], post. exact H.
    + exists (b :: pre), post. rewrite H. reflexivity.
Qed.

Lemma indexOfFrom_found (needle hay : jsstring) (pos : Z) :
  (0 <= pos)%Z ->
  (indexOfFrom needle hay pos <> (-1)%Z <-> occurs needle hay)
  /\ (indexOfFrom needle hay pos = (-1)%Z \/ (pos <= indexOfFrom needle hay pos)%Z).
Proof.
  revert pos. induction hay as [| b h IH]; intros pos Hpos.
  - simpl. destruct (startsWith needle []) eqn:E.
    + split; [| right; lia]. split; [| lia]. intros _.
      apply startsWith_prefix in E. destruct E as [post E].
      exists [], post. exact E.
    + split; [| left; reflexivity]. split; [congruence|].
      intros [pre [post H]]. destruct pre; [| discriminate H].
      assert (startsWith needle [] = true) by (apply startsWith_prefix; eauto).
      congruence.
  - cbn [indexOfFrom]. destruct (startsWith needle (b :: h)) eqn:E.
    + split; [| right; lia]. split; [| lia]. intros _.
      apply occurs_cons. left. apply startsWith_prefix. exact E.
    + destruct (IH (pos + 1)%Z ltac:(lia)) as [IH1 IH2].
      split; [| destruct IH2; [left; assumption | right; lia]].
      rewrite IH1, occurs_cons. split; [tauto|].
      intros [H | H]; [| exact H].
      apply startsWith_prefix in H. congruence.
Qed.

Lemma contains_occurs (hay : jsstring) (needle : string) :
  Mount.contains hay needle = true <-> occurs (lit needle) hay.
Proof.
  unfold Mount.contains, indexOf.
  destruct (indexOfFrom_found (lit needle) hay 0%Z ltac:(lia)) as [H _].
  rewrite negb_true_iff, Z.eqb_neq. exact H.
Qed.

Lemma contains_not_occurs (hay : jsstring) (needle : string) :
  Mount.contains hay needle = false <-> ~ occurs (lit needle) hay.
Proof.
  rewrite <- contains_occurs. destruct (Mount.contains hay needle); split; congruence.
Qed.

(** ** Q deferreds settle once *)

Lemma resolve_settled {A} (v : A) (d : deferred A) :
  isPending d = false -> resolve v d = d.
Proof. destruct d; simpl; congruence. Qed.

Lemma reject_settled {A} (r : reason) (d : deferred A) :
  isPending d = false -> reject r d = d.
Proof. destruct d; simpl; congruence. Qed.

Lemma resolve_not_pending {A} (v : A) (d : deferred A) :
  isPending (resolve v d) = false.
Proof. destruct d; reflexivity. Qed.

Lemma reject_not_pending {A} (r : reason) (d : deferred A) :
  isPending (reject r d) = false.
Proof. destruct d; reflexivity. Qed.

(** ** The image mount *)

Lemma mount_run_stdout (chunks : list jsstring) (st : Mount.state) :
  Mount.run (map Mount.StdoutData chunks) st
  = Mount.mkState (Mount.stdout st ++ List.concat chunks) (Mount.deferred st).
Proof.
  revert st. induction chunks as [| c chunks IH]; intros st; simpl.
  - rewrite app_nil_r. destruct st; reflexivity.
  - unfold Mount.run in IH. rewrite IH. simpl. rewrite app_assoc. reflexivity.
Qed.

Lemma mount_handle_settled (e : Mount.event) (st : Mount.state) :
  isPending (Mount.deferred st) = false ->
  Mount.deferred (Mount.handle e st) = Mount.deferred st.
Proof.
  intros H. destruct e as [data | code | err]; simpl; [reflexivity | |].
  - unfold Mount.onClose.
    destruct (Mount.isNonZero code), (Mount.contains (Mount.stdout st) "Error:"),
      (Mount.contains (Mount.stdout st) "No device found, is it plugged in?");
      simpl; rewrite ?resolve_settled, ?reject_settled; auto using reject_not_pending.
  - apply reject_settled. exact H.
Qed.

Lemma mount_run_settled (evs : list Mount.event) (st : Mount.state) :
  isPending (Mount.deferred st) = false ->
  Mount.deferred (Mount.run evs st) = Mount.deferred st.
Proof.
  revert st. induction evs as [| e evs IH]; intros st H; simpl; [reflexivity|].
  unfold Mount.run in IH. rewrite IH; rewrite mount_handle_settled; auto.
Qed.

(** C8.  When the image-mount utility closes with a nonzero exit code,
    with [out] the standard output gathered until then:
    [mountDeveloperImage] resolves if [out] contains ["Error:"]; otherwise
    it rejects with NoDeviceAttached if [out] contains
    ["No device found, is it plugged in?"], and with
    ErrorMountingDiskImage if it contains neither. *)
Theorem mountDeveloperImage_nonzero_exit
    (path : jsstring) (chunks : list jsstring) (code : option Z)
    (later : list Mount.event) :
  Mount.isNonZero code = true ->
  let out := List.concat chunks in
  let result :=
    Mount.mountDeveloperImage (Fulfilled path)
      (map Mount.StdoutData chunks ++ Mount.Close code :: later) in
  (occurs (lit "Error:") out -> result = Fulfilled tt)
  /\ (~ occurs (lit "Error:") out ->
      occurs (lit "No device found, is it plugged in?") out ->
      result = Rejected NoDeviceAttached)
  /\ (~ occurs (lit "Error:") out ->
      ~ occurs (lit "No device found, is it plugged in?") out ->
      result = Rejected ErrorMountingDiskImage).
Proof.
  intros Hcode out result.
  assert (E : result =
    Mount.deferred (Mount.run later (Mount.onClose code (Mount.mkState out Pending)))).
  { unfold result, Mount.mountDeveloperImage, Mount.run.
    rewrite fold_left_app. fold (Mount.run (map Mount.StdoutData chunks) Mount.spawned).
    rewrite mount_run_stdout. reflexivity. }
  rewrite E. unfold Mount.onClose. rewrite Hcode. cbn [Mount.stdout Mount.deferred].
  repeat split.
  - intros H. apply contains_occurs in H. rewrite H.
    rewrite mount_run_settled; reflexivity.
  - intros H1 H2. apply contains_not_occurs in H1. apply contains_occurs in H2.
    rewrite H1, H2. rewrite mount_run_settled; reflexivity.
  - intros H1 H2. apply contains_not_occurs in H1. apply contains_not_occurs in H2.
    rewrite H1, H2. rewrite mount_run_settled; reflexivity.
Qed.

Lemma mountDeveloperImage_nonzero_exit_witness :
  Mount.isNonZero (Some 1%Z) = true
  /\ (occurs (lit "Error:") (List.concat [lit "Error: Device is "; lit "locked"]) ->
      Mount.mountDeveloperImage (Fulfilled (lit "/DeveloperDiskImage.dmg"))
        (map Mount.StdoutData [lit "Error: Device is "; lit "locked"]
           ++ [Mount.Close (Some 1%Z)]) = Fulfilled tt).
Proof.
  split; [reflexivity|].
  apply (mountDeveloperImage_nonzero_exit (lit "/DeveloperDiskImage.dmg")
           [lit "Error: Device is "; lit "locked"] (Some 1%Z) []).
  reflexivity.
Defined.

(** ** The debug proxy *)

Lemma proxy_handle_settled (e : Proxy.event) (st : Proxy.state) :
  isPending (Proxy.deferred st) = false ->
  Proxy.deferred (Proxy.handle e st) = Proxy.deferred st
  /\ Proxy.mounted (Proxy.handle e st) = Proxy.mounted st.
Proof.
  intros H. destruct e as [err |]; simpl.
  - destruct (Proxy.errorListener st); simpl; rewrite ?reject_settled; auto.
  - destruct (Proxy.delayPending st); simpl; rewrite ?resolve_settled; auto.
Qed.

Lemma proxy_run_settled (evs : list Proxy.event) (st : Proxy.state) :
  isPending (Proxy.deferred st) = false ->
  Proxy.promise (Proxy.run evs st) = Proxy.promise st.
Proof.
  revert st. induction evs as [| e evs IH]; intros st H; simpl; [reflexivity|].
  destruct (proxy_handle_settled e st H) as [Hd Hm].
  unfold Proxy.run in IH. rewrite IH by (rewrite Hd; exact H).
  unfold Proxy.promise. rewrite Hd, Hm. reflexivity.
Qed.

(** C9.  Once [startDebugProxy] has spawned the proxy (the mount went
    through): if the process reports an error before the 200ms have
    passed, the returned promise is rejected with that error
    (ProxySpawnFailed); if the 200ms pass first, it is fulfilled with the
    process stored in the shared state, whatever happens later. *)
Theorem startDebugProxy_outcome
    (proxyPort : N) (child : Proxy.ChildProcess) (g : Proxy.SharedStateGlobal)
    (err : jsstring) (later : list Proxy.event) :
  let st := Proxy.startDebugProxy proxyPort (Fulfilled tt) child g in
  Proxy.promise st = Pending
  /\ Proxy.promise (Proxy.run (Proxy.SpawnError err :: later) st)
     = Rejected (Proxy.ProxySpawnFailed err)
  /\ Proxy.promise (Proxy.run (Proxy.Delay :: later) st)
     = Fulfilled (Proxy.nativeDebuggerProxyInstance (Proxy.global st))
  /\ Proxy.nativeDebuggerProxyInstance (Proxy.global st) = Some child.
Proof.
  intros st.
  assert (Hst : exists k,
    st = Proxy.mkState (Some (Some child)) k (Fulfilled tt) Pending true true).
  { unfold st, Proxy.startDebugProxy.
    destruct (Proxy.nativeDebuggerProxyInstance g); simpl.
    - destruct g; simpl; eauto.
    - destruct g; simpl; eauto. }
  clearbody st. destruct Hst as [k ->].
  repeat split; simpl; rewrite proxy_run_settled; reflexivity.
Qed.

(** ** The handshake: reading replies *)

Lemma onData_classify (data : jsstring) (st : state) :
  onData data st =
  match classify data with
  | NoFrame => st
  | ReplyW =>
      socketEnd (set_endStatus (Some (parseInt16 (substring (stripPlus data) 2 4)))
                   (socketWrite (lit "+") st))
  | ReplyX =>
      socketEnd (set_endSignal (Some (parseInt16 (substring (stripPlus data) 2 4)))
                   (socketWrite (lit "+") st))
  | ReplyT => socketEnd (socketWrite (lit "+") st)
  | ReplyOK =>
      if Nat.eqb (initState st) 1 then resolveStep Step1 (socketWrite (lit "+") st)
      else if Nat.eqb (initState st) 2 then resolveStep Step2 (socketWrite (lit "+") st)
      else socketWrite (lit "+") st
  | ReplyO =>
      if Nat.eqb (initState st) 3
      then set_initState (S (initState st)) (resolveStep Step3 (socketWrite (lit "+") st))
      else socketWrite (lit "+") st
  | ReplyE => rejectAll LaunchFailed (socketWrite (lit "+") st)
  | ReplyOther => socketWrite (lit "+") st
  end.
Proof.
  unfold onData, classify.
  repeat match goal with
         | |- context [if ?b then _ else _] =>
             lazymatch b with
             | Nat.eqb _ _ => fail
             | _ => destruct b
             end
         end; reflexivity.
Qed.

Lemma stripPlus_pluses (k : nat) (rest : jsstring) :
  stripPlus (pluses k ++ rest) = stripPlus rest.
Proof. induction k as [| k IH]; [reflexivity | exact IH]. Qed.

Lemma stripPlus_frame (k : nat) (c : jsstring) :
  stripPlus (pluses k ++ makeGdbCommand c) = makeGdbCommand c.
Proof. rewrite stripPlus_pluses. reflexivity. Qed.

Lemma classify_okFrame (k : nat) : classify (pluses k ++ okFrame) = ReplyOK.
Proof. unfold classify, okFrame. rewrite stripPlus_frame. reflexivity. Qed.

Lemma classify_errorFrame (k : nat) (code : jsstring) :
  classify (pluses k ++ errorFrame code) = ReplyE.
Proof. unfold classify, errorFrame. rewrite stripPlus_frame. reflexivity. Qed.

Lemma classify_exitFrame (k : nat) (m : exitMarker) (rest : jsstring) :
  classify (pluses k ++ exitFrame m rest) =
  match m with
  | ExitedW => ReplyW
  | SignalledX => ReplyX
  | StoppedT => ReplyT
  end.
Proof. unfold classify, exitFrame. rewrite stripPlus_frame. destruct m; reflexivity. Qed.

(** An output reply is read as output unless its text begins with [K],
    which makes it an [OK]. *)
Lemma classify_outputFrame_gen (k : nat) (payload : jsstring) :
  charIs payload 0 "K" = false ->
  classify (pluses k ++ outputFrame payload) = ReplyO.
Proof.
  intros H. unfold classify, outputFrame. rewrite stripPlus_frame.
  destruct payload as [| c payload]; [reflexivity|].
  unfold charIs in H. simpl in H.
  unfold makeGdbCommand. cbn [lit list_ascii_of_string map app N_of_ascii].
  unfold charIs, substring. simpl.
  unfold JS.eqb in *.
  destruct (list_eq_dec N.eq_dec [c] (lit "K")) as [E | E]; [discriminate H|].
  destruct (list_eq_dec N.eq_dec [79; c] [79; 75]) as [E2 | E2]; [| reflexivity].
  exfalso. apply E. injection E2 as ->. reflexivity.
Qed.

Lemma classify_outputFrame (k : nat) (payload : jsstring) :
  forallb isHexChar payload = true ->
  classify (pluses k ++ outputFrame payload) = ReplyO.
Proof.
  intros H. apply classify_outputFrame_gen.
  destruct payload as [| c payload]; [reflexivity|].
  simpl in H. apply andb_true_iff in H. destruct H as [H _].
  unfold charIs. simpl. unfold JS.eqb.
  destruct (list_eq_dec N.eq_dec [c] (lit "K")) as [E | E]; [| reflexivity].
  injection E as ->. discriminate H.
Qed.

(** ** The handshake: expectations settle once *)

Ltac case_ifs :=
  repeat match goal with
         | |- context [if ?b then _ else _] => destruct b eqn:?
         end.

Ltac settled_rewrite :=
  cbn in *; rewrite ?resolve_settled, ?reject_settled by assumption;
  try reflexivity.

Lemma settle_outcome (a : attempt) : settle a Pending = outcome a.
Proof. destruct a; reflexivity. Qed.

Lemma settle_not_pending (a : attempt) (d : deferred sock) :
  isPending (settle a d) = false.
Proof. destruct a, d; reflexivity. Qed.

Lemma settle_settled (a : attempt) (d : deferred sock) :
  isPending d = false -> settle a d = d.
Proof. destruct a, d; simpl; congruence. Qed.

Lemma attemptOn_deferred (n : stepId) (a : attempt) (st : state) :
  deferredOf n (attemptOn n a st) = settle a (deferredOf n st).
Proof. destruct n, a; reflexivity. Qed.

Lemma attemptOn_settled (n : stepId) (a : attempt) (st : state) :
  isPending (deferredOf n st) = false -> attemptOn n a st = st.
Proof.
  intros H. destruct st; destruct n, a; cbn in *;
    unfold resolveStep, rejectStep, set_deferreds; cbn;
    rewrite ?resolve_settled, ?reject_settled by assumption; reflexivity.
Qed.

Lemma attemptAll_settled (n : stepId) (l : list attempt) (st : state) :
  isPending (deferredOf n st) = false -> attemptAll n l st = st.
Proof.
  revert st. induction l as [| a l IH]; intros st H; simpl; [reflexivity|].
  rewrite attemptOn_settled by exact H. apply IH. exact H.
Qed.

Lemma rejectAll_deferredOf (n : stepId) (r : reason) (st : state) :
  deferredOf n (rejectAll r st) = reject r (deferredOf n st).
Proof. destruct n; reflexivity. Qed.

Lemma handle_settled (n : stepId) (e : event) (st : state) :
  isPending (deferredOf n st) = false ->
  deferredOf n (handle e st) = deferredOf n st.
Proof.
  intros H. destruct e as [| data | | err | m |]; cbn [handle].
  - case_ifs; destruct n; reflexivity.
  - rewrite onData_classify. destruct (classify data); case_ifs;
      destruct n; settled_rewrite.
  - unfold onEnd. rewrite rejectAll_deferredOf. apply reject_settled. exact H.
  - unfold onError. rewrite rejectAll_deferredOf. apply reject_settled. exact H.
  - case_ifs; [| reflexivity]. destruct n, m; settled_rewrite.
  - unfold tick. case_ifs; destruct n; reflexivity.
Qed.

Lemma run_settled (n : stepId) (evs : list event) (st : state) :
  isPending (deferredOf n st) = false ->
  deferredOf n (run evs st) = deferredOf n st.
Proof.
  revert st. induction evs as [| e evs IH]; intros st H; simpl; [reflexivity|].
  unfold run in IH. rewrite IH; rewrite handle_settled; auto.
Qed.

(** C5.  Settling the expectation of a step is idempotent.  Whatever a
    first attempt (matching reply, error reply, connection end,
    connection error, timeout) makes of the expectation, every later
    sequence of attempts leaves the whole session state as it is; on a
    fresh expectation the first attempt alone fixes the outcome; and no
    later event of the session changes a settled expectation. *)
Theorem settle_first_wins
    (n : stepId) (st : state) (a : attempt) (later : list attempt)
    (evs : list event) :
  attemptAll n later (attemptOn n a st) = attemptOn n a st
  /\ deferredOf n (attemptOn n a st) = settle a (deferredOf n st)
  /\ settle a Pending = outcome a
  /\ isPending (outcome a) = false
  /\ fold_left (fun d b => settle b d) (a :: later) Pending = outcome a
  /\ deferredOf n (run evs (attemptOn n a st)) = deferredOf n (attemptOn n a st).
Proof.
  assert (Hs : isPending (deferredOf n (attemptOn n a st)) = false)
    by (rewrite attemptOn_deferred; apply settle_not_pending).
  split; [apply attemptAll_settled; exact Hs|].
  split; [apply attemptOn_deferred|].
  split; [apply settle_outcome|].
  split; [destruct a; reflexivity|].
  split; [| apply run_settled; exact Hs].
  simpl. rewrite settle_outcome.
  induction later as [| b later IH]; simpl; [reflexivity|].
  rewrite settle_settled by (destruct a; reflexivity). exact IH.
Qed.

(** ** The handshake: what every reachable state satisfies *)

Lemma neq_eqb (a b : jsstring) : a <> b -> JS.eqb a b = false.
Proof.
  intros H. destruct (JS.eqb a b) eqn:E; [| reflexivity].
  apply eqb_eq in E. contradiction.
Qed.

Lemma launchCommand_head (p : jsstring) :
  exists t, launchCommand p = 36 :: 65 :: t.
Proof. unfold launchCommand, makeGdbCommand. simpl. eauto. Qed.

Lemma Inv_start (portNumber : N) (packagePath : jsstring) (appLaunchStepTimeout : N) :
  Inv (startAppViaDebugger portNumber packagePath appLaunchStepTimeout).
Proof. unfold Inv. cbn. repeat split; intros; try discriminate; auto. Qed.

Lemma filter_commands_ack (w : list jsstring) :
  filter (fun s => negb (JS.eqb s (lit "+"))) (w ++ [lit "+"])
  = filter (fun s => negb (JS.eqb s (lit "+"))) w.
Proof. rewrite filter_app. cbn. apply app_nil_r. Qed.

Lemma filter_commands_cmd (w : list jsstring) (c : jsstring) :
  c <> lit "+" ->
  filter (fun s => negb (JS.eqb s (lit "+"))) (w ++ [c])
  = filter (fun s => negb (JS.eqb s (lit "+"))) w ++ [c].
Proof.
  intros H. rewrite filter_app. cbn [filter].
  rewrite (neq_eqb _ _ H). reflexivity.
Qed.

Lemma launchCommand_not_ack (p : jsstring) : launchCommand p <> lit "+".
Proof. destruct (launchCommand_head p) as [t ->]. discriminate. Qed.

Lemma makeGdbCommand_not_ack (c : jsstring) : makeGdbCommand c <> lit "+".
Proof. unfold makeGdbCommand. discriminate. Qed.

Ltac inv_cbn :=
  cbn -[launchCommand makeGdbCommand Nat.min firstn filter lit] in *.

Ltac inv_start :=
  match goal with
  | HI : Inv ?st |- _ =>
      destruct st as [p i es eg d1 d2 d3 [w ec cp] t1 t2 t3 r1 r2];
      unfold Inv, commands in HI |- *;
      inv_cbn;
      destruct HI as (Hc & Hi & H1 & H2 & H3 & H4 & H5 & H6 & H7 & H8 & H9)
  end.

Ltac prune :=
  cbn [isFulfilled isPending negb] in *;
  repeat match goal with
         | H : true = true -> _ |- _ => specialize (H eq_refl)
         | H : _ /\ _ |- _ => destruct H
         | H : _ \/ _ |- _ => destruct H
         | H : false = true |- _ => discriminate H
         | H : true = false |- _ => discriminate H
         | H : S _ = O |- _ => discriminate H
         | H : O = S _ |- _ => discriminate H
         | H : S _ = S _ |- _ => apply eq_add_S in H
         | H : ?x = _ |- _ => is_var x; subst x
         end.

Ltac inv_cases cp r1 r2 d1 d2 d3 :=
  destruct cp; prune; destruct r1; prune; destruct r2; prune;
  destruct d1; prune; destruct d2; prune; destruct d3; prune.

Ltac inv_solve :=
  inv_cbn;
  rewrite ?filter_commands_ack;
  rewrite ?filter_commands_cmd
    by first [apply launchCommand_not_ack | apply makeGdbCommand_not_ack];
  repeat split; intros; prune; auto;
  try match goal with
      | H : filter _ _ = _ |- _ => rewrite H; reflexivity
      end.

Lemma Inv_handle (e : event) (st : state) : Inv st -> Inv (handle e st).
Proof.
  intros HI. destruct e as [| data | | err | m |]; cbn [handle].
  - (* Connect *)
    inv_start. inv_cases cp r1 r2 d1 d2 d3. 
    all: unfold onConnect; inv_solve.
  - (* Data *)
    rewrite onData_classify. inv_start.
    destruct (classify data); inv_cases cp r1 r2 d1 d2 d3.
    all: inv_solve.
  - unfold onEnd. inv_start. inv_cases cp r1 r2 d1 d2 d3; inv_solve.
  - unfold onError. inv_start. inv_cases cp r1 r2 d1 d2 d3; inv_solve.
  - inv_start. inv_cases cp r1 r2 d1 d2 d3;
      (destruct m; [destruct t1 | destruct t2 | destruct t3]); inv_solve.
  - unfold tick, then1, then2. inv_start. inv_cases cp r1 r2 d1 d2 d3; inv_solve.
Qed.

Lemma Inv_run (evs : list event) (st : state) : Inv st -> Inv (run evs st).
Proof.
  revert st. induction evs as [| e evs IH]; intros st H; [exact H|].
  apply IH. apply Inv_handle. exact H.
Qed.

Lemma encodedPath_handle (e : event) (st : state) :
  encodedPath (handle e st) = encodedPath st.
Proof.
  destruct e as [| data | | err | m |]; cbn [handle].
  - case_ifs; reflexivity.
  - rewrite onData_classify. destruct (classify data); case_ifs; reflexivity.
  - reflexivity.
  - reflexivity.
  - case_ifs; destruct m; reflexivity.
  - unfold tick. case_ifs; reflexivity.
Qed.

Lemma encodedPath_run (evs : list event) (st : state) :
  encodedPath (run evs st) = encodedPath st.
Proof.
  revert st. induction evs as [| e evs IH]; intros st; [reflexivity|].
  simpl. unfold run in IH. rewrite IH. apply encodedPath_handle.
Qed.

Lemma fulfilled_value (d : deferred sock) :
  isFulfilled d = true -> d = Fulfilled TheSocket.
Proof. destruct d as [| [] |]; simpl; congruence. Qed.

(** ** The handshake: what is written, and when *)

Lemma handle_written (e : event) (st : state) :
  exists out,
    written (socket (handle e st)) = written (socket st) ++ out
    /\ (out = [] \/ out = [lit "+"]
        \/ (out = [launchCommand (encodedPath st)]
            /\ connectPending (socket st) = true)
        \/ (out = [makeGdbCommand (lit "Hc0")]
            /\ isFulfilled (deferred1 st) = true /\ then1Ran st = false)
        \/ (out = [makeGdbCommand (lit "c")]
            /\ isFulfilled (deferred2 st) = true /\ then2Ran st = false
            /\ isFulfilled (deferred1 st) = true /\ then1Ran st = true)).
Proof.
  destruct e as [| data | | err | m |]; cbn [handle].
  - destruct (connectPending (socket st)) eqn:E.
    + eexists. split; [reflexivity|]. right. right. left. auto.
    + exists []. rewrite app_nil_r. auto.
  - rewrite onData_classify.
    destruct (classify data); case_ifs;
      first [ exists []; rewrite app_nil_r; split; [reflexivity | auto]
            | exists [lit "+"]; split; [reflexivity | auto] ].
  - exists []. rewrite app_nil_r. auto.
  - exists []. rewrite app_nil_r. auto.
  - exists []. rewrite app_nil_r. split; [| auto].
    case_ifs; destruct m; reflexivity.
  - unfold tick.
    destruct (isFulfilled (deferred1 st)) eqn:E1;
      [| exists []; rewrite app_nil_r; auto].
    destruct (then1Ran st) eqn:R1; cbn [negb].
    + destruct (isFulfilled (deferred2 st)) eqn:E2; cbn [andb];
        [| exists []; rewrite app_nil_r; auto].
      destruct (then2Ran st) eqn:R2; cbn [negb];
        [exists []; rewrite app_nil_r; auto|].
      eexists. split; [reflexivity|]. right. right. right. right. auto.
    + eexists. split; [reflexivity|]. right. right. right. left. auto.
Qed.

Lemma skipn_length_app {A} (l out : list A) :
  skipn (List.length l) (l ++ out) = out.
Proof. induction l as [| x l IH]; [reflexivity | exact IH]. Qed.

Lemma sent_cases (e : event) (st : state) :
  written (socket (handle e st)) = written (socket st) ++ sent e st
  /\ (sent e st = [] \/ sent e st = [lit "+"]
      \/ (sent e st = [launchCommand (encodedPath st)]
          /\ connectPending (socket st) = true)
      \/ (sent e st = [makeGdbCommand (lit "Hc0")]
          /\ isFulfilled (deferred1 st) = true /\ then1Ran st = false)
      \/ (sent e st = [makeGdbCommand (lit "c")]
          /\ isFulfilled (deferred2 st) = true /\ then2Ran st = false
          /\ isFulfilled (deferred1 st) = true /\ then1Ran st = true)).
Proof.
  destruct (handle_written e st) as [out [Hw Hout]].
  assert (E : sent e st = out)
    by (unfold sent; rewrite Hw; apply skipn_length_app).
  rewrite E. split; assumption.
Qed.

Lemma Hc0_not_launch (p : jsstring) : makeGdbCommand (lit "Hc0") <> launchCommand p.
Proof. destruct (launchCommand_head p) as [t ->]. discriminate. Qed.

Lemma c_not_launch (p : jsstring) : makeGdbCommand (lit "c") <> launchCommand p.
Proof. destruct (launchCommand_head p) as [t ->]. discriminate. Qed.

Lemma in_commands (c : jsstring) (st : state) :
  c <> lit "+" -> In c (written (socket st)) -> In c (commands st).
Proof.
  intros Hc Hin. unfold commands. apply filter_In. split; [exact Hin|].
  rewrite neq_eqb by exact Hc. reflexivity.
Qed.

(** In a reachable state the commands written tell how far the steps got. *)
Lemma Inv_written (st : state) :
  Inv st ->
  (In (makeGdbCommand (lit "Hc0")) (written (socket st)) ->
   deferred1 st = Fulfilled TheSocket)
  /\ (In (makeGdbCommand (lit "c")) (written (socket st)) ->
      deferred2 st = Fulfilled TheSocket /\ deferred1 st = Fulfilled TheSocket).
Proof.
  intros HI. split; intros Hin.
  - apply in_commands in Hin; [| apply makeGdbCommand_not_ack].
    destruct HI as (Hc & Hi & H1 & H2 & _). rewrite Hc in Hin.
    apply fulfilled_value. apply H1.
    destruct (connectPending (socket st)); [rewrite Hi in Hin; destruct Hin|].
    destruct (then1Ran st); [reflexivity|]. cbn [negb] in Hi. rewrite Hi in Hin.
    destruct Hin as [E | []]. symmetry in E. apply Hc0_not_launch in E. destruct E.
  - apply in_commands in Hin; [| apply makeGdbCommand_not_ack].
    destruct HI as (Hc & Hi & H1 & H2 & _). rewrite Hc in Hin.
    assert (R2 : then2Ran st = true).
    { destruct (connectPending (socket st)); [rewrite Hi in Hin; destruct Hin|].
      destruct (then1Ran st); cbn [negb] in Hi.
      - destruct (then2Ran st); [reflexivity|]. cbn [negb] in Hi. rewrite Hi in Hin.
        destruct Hin as [E | [E | []]].
        + symmetry in E. apply c_not_launch in E. destruct E.
        + vm_compute in E. discriminate E.
      - rewrite Hi in Hin. destruct Hin as [E | []].
        symmetry in E. apply c_not_launch in E. destruct E. }
    destruct (H2 R2) as [R1 F2]. split; apply fulfilled_value; auto.
Qed.

(** C2.  In every state a session can reach: the commands written so
    far are an initial part of the sequence launch argument, [Hc0], [c];
    an event writes [Hc0] only in a state where the expectation of step 1
    is already fulfilled and only the launch command is out, and writes
    [c] only where that of step 2 is already fulfilled and exactly the
    first two commands are out; so a state that has [Hc0] (or [c]) on the
    wire has step 1 (or step 2) fulfilled; and a step never has more than
    one unresolved expectation. *)
Theorem commands_serialized
    (portNumber : N) (packagePath : jsstring) (appLaunchStepTimeout : N)
    (evs : list event) (e : event) (n : stepId) :
  let st := run evs (startAppViaDebugger portNumber packagePath appLaunchStepTimeout) in
  let cmdA := launchCommand (encodePath packagePath) in
  let cmdH := makeGdbCommand (lit "Hc0") in
  let cmdC := makeGdbCommand (lit "c") in
  (exists k, commands st = firstn k [cmdA; cmdH; cmdC])
  /\ written (socket (handle e st)) = written (socket st) ++ sent e st
  /\ (In cmdH (sent e st) ->
      deferred1 st = Fulfilled TheSocket /\ commands st = [cmdA])
  /\ (In cmdC (sent e st) ->
      deferred2 st = Fulfilled TheSocket /\ deferred1 st = Fulfilled TheSocket
      /\ commands st = [cmdA; cmdH])
  /\ (In cmdA (sent e st) -> commands st = [])
  /\ (In cmdH (written (socket st)) -> deferred1 st = Fulfilled TheSocket)
  /\ (In cmdC (written (socket st)) -> deferred2 st = Fulfilled TheSocket)
  /\ (unresolved n st <= 1)%nat.
Proof.
  intros st cmdA cmdH cmdC.
  assert (HI : Inv st) by (apply Inv_run, Inv_start).
  assert (Hp : encodedPath st = encodePath packagePath)
    by (unfold st; rewrite encodedPath_run; reflexivity).
  destruct (sent_cases e st) as [Hw Hs]. rewrite Hp in Hs.
  destruct (Inv_written st HI) as [WH WC].
  pose proof HI as (Hc & Hi & H1 & H2 & H3 & H4 & H5 & _).
  rewrite Hp in Hc. fold cmdA cmdH cmdC in Hc, Hs.
  split; [eexists; exact Hc|].
  split; [exact Hw|].
  split; [| split; [| split; [| split; [exact WH | split; [apply WC|]]]]].
  - intros Hin.
    destruct Hs as [E | [E | [[E _] | [[E [F1 R1]] | [E _]]]]];
      rewrite E in Hin; cbn [In] in Hin;
      [destruct Hin | destruct Hin as [Hin | []] ..].
    + vm_compute in Hin. discriminate Hin.
    + symmetry in Hin. apply Hc0_not_launch in Hin. destruct Hin.
    + split; [apply fulfilled_value; exact F1|].
      rewrite Hc. rewrite (H5 F1), R1 in Hi. cbn [negb] in Hi. rewrite Hi. reflexivity.
    + vm_compute in Hin. discriminate Hin.
  - intros Hin.
    destruct Hs as [E | [E | [[E _] | [[E _] | [E [F2 [R2 [F1 R1]]]]]]]];
      rewrite E in Hin; cbn [In] in Hin;
      [destruct Hin | destruct Hin as [Hin | []] ..].
    + vm_compute in Hin. discriminate Hin.
    + symmetry in Hin. apply c_not_launch in Hin. destruct Hin.
    + vm_compute in Hin. discriminate Hin.
    + split; [apply fulfilled_value; exact F2|].
      split; [apply fulfilled_value; exact F1|].
      rewrite Hc. rewrite (H5 F1), R1, R2 in Hi. cbn [negb] in Hi. rewrite Hi. reflexivity.
  - intros Hin.
    destruct Hs as [E | [E | [[E Hcp] | [[E _] | [E _]]]]];
      rewrite E in Hin; cbn [In] in Hin;
      [destruct Hin | destruct Hin as [Hin | []] ..].
    + symmetry in Hin. apply launchCommand_not_ack in Hin. destruct Hin.
    + rewrite Hc. rewrite Hcp in Hi. rewrite Hi. reflexivity.
    + apply Hc0_not_launch in Hin. destruct Hin.
    + apply c_not_launch in Hin. destruct Hin.
  - unfold unresolved. destruct (isPending (deferredOf n st)); lia.
Qed.

(** ** The handshake: error replies, timeouts and process exits *)

Lemma Inv_pending_chain (st : state) :
  Inv st ->
  deferred1 st = Pending ->
  forall m, deferredOf m st = Pending.
Proof.
  intros HI Hd m.
  destruct HI as (_ & _ & _ & _ & _ & _ & _ & _ & _ & H8 & H9).
  assert (P2 : isPending (deferred2 st) = true) by (apply H8; rewrite Hd; reflexivity).
  assert (P3 : isPending (deferred3 st) = true) by (apply H9; exact P2).
  destruct m; cbn [deferredOf]; [exact Hd | |].
  - destruct (deferred2 st); try discriminate P2; reflexivity.
  - destruct (deferred3 st); try discriminate P3; reflexivity.
Qed.

Lemma reject_pending {A} (r : reason) (d : deferred A) :
  isPending d = true -> reject r d = Rejected r.
Proof. destruct d; simpl; congruence. Qed.

(** C3.  In every state a session can reach, an error reply (any number
    of [+], then a frame that starts with [$E]) makes the listener call
    [reject] with LaunchFailed on all three expectations: each one that is
    still unresolved becomes rejected with LaunchFailed (all three when
    step 1 is still awaited).  [socket.end()] is not called: the
    connection stays as open as it was. *)
Theorem error_reply_rejects_all
    (portNumber : N) (packagePath : jsstring) (appLaunchStepTimeout : N)
    (evs : list event) (k : nat) (code : jsstring) (n : stepId) :
  let st := run evs (startAppViaDebugger portNumber packagePath appLaunchStepTimeout) in
  let st' := handle (Data (pluses k ++ errorFrame code)) st in
  st' = rejectAll LaunchFailed (socketWrite (lit "+") st)
  /\ deferredOf n st' = reject LaunchFailed (deferredOf n st)
  /\ (isPending (deferredOf n st) = true -> deferredOf n st' = Rejected LaunchFailed)
  /\ (deferred1 st = Pending -> forall m, deferredOf m st' = Rejected LaunchFailed)
  /\ endCalled (socket st') = endCalled (socket st)
  /\ initState st' = initState st.
Proof.
  intros st st'.
  assert (E : st' = rejectAll LaunchFailed (socketWrite (lit "+") st)).
  { unfold st'. cbn [handle]. rewrite onData_classify, classify_errorFrame. reflexivity. }
  assert (D : forall m, deferredOf m st' = reject LaunchFailed (deferredOf m st)).
  { intros m. rewrite E. rewrite rejectAll_deferredOf. destruct m; reflexivity. }
  split; [exact E|]. split; [apply D|].
  split; [intros H; rewrite D; apply reject_pending; exact H|].
  split; [| rewrite E; split; reflexivity].
  intros H m. rewrite D.
  rewrite (Inv_pending_chain st (Inv_run evs _ (Inv_start _ _ _)) H m). reflexivity.
Qed.

Lemma Inv_timer_earlier (st : state) (n m : stepId) :
  Inv st -> timerOf n st = true -> earlier m n = true ->
  deferredOf m st = Fulfilled TheSocket.
Proof.
  intros HI Ht He.
  destruct HI as (_ & _ & H1 & H2 & _ & _ & _ & H6 & H7 & _).
  apply fulfilled_value.
  destruct n, m; try discriminate He; cbn [timerOf deferredOf] in *.
  - apply H1, H6, Ht.
  - apply H1. apply (H2 (H7 Ht)).
  - apply (H2 (H7 Ht)).
Qed.

(** C4.  In every state a session can reach: when the timer of step [n]
    fires while the expectation of step [n] is unresolved, that
    expectation is rejected with LaunchTimeout; the expectations of the
    other steps are left as they are, those of the earlier steps are
    fulfilled and stay fulfilled, and the socket is untouched (it is not
    ended, and nothing is written). *)
Theorem step_timeout_rejects_step
    (portNumber : N) (packagePath : jsstring) (appLaunchStepTimeout : N)
    (evs : list event) (n : stepId) :
  let st := run evs (startAppViaDebugger portNumber packagePath appLaunchStepTimeout) in
  timerOf n st = true ->
  deferredOf n st = Pending ->
  let st' := handle (Timeout n) st in
  deferredOf n st' = Rejected LaunchTimeout
  /\ (forall m, m <> n -> deferredOf m st' = deferredOf m st)
  /\ (forall m, earlier m n = true ->
        deferredOf m st = Fulfilled TheSocket
        /\ deferredOf m st' = Fulfilled TheSocket)
  /\ socket st' = socket st
  /\ initState st' = initState st.
Proof.
  intros st Ht Hd st'.
  assert (HI : Inv st) by (apply Inv_run, Inv_start).
  assert (E : st' = rejectStep n LaunchTimeout (clearTimer n st))
    by (unfold st'; cbn [handle]; rewrite Ht; reflexivity).
  assert (O : forall m, m <> n -> deferredOf m st' = deferredOf m st).
  { intros m Hm. rewrite E. destruct n, m; try reflexivity; contradiction. }
  split; [rewrite E; destruct n; cbn in *; rewrite Hd; reflexivity|].
  split; [exact O|].
  split; [| rewrite E; destruct n; split; reflexivity].
  intros m He.
  assert (F : deferredOf m st = Fulfilled TheSocket)
    by (apply (Inv_timer_earlier st n m HI Ht He)).
  split; [exact F|]. rewrite O; [exact F|].
  intros ->. destruct n; discriminate He.
Qed.

Lemma step_timeout_rejects_step_witness :
  let st := run [Connect; Data (lit "+$OK#9A"); Tick]
              (startAppViaDebugger 12345 (lit "/a.app") 5000) in
  timerOf Step2 st = true
  /\ deferredOf Step2 st = Pending
  /\ deferredOf Step2 (handle (Timeout Step2) st) = Rejected LaunchTimeout
  /\ deferredOf Step1 (handle (Timeout Step2) st) = Fulfilled TheSocket.
Proof.
  intros st.
  assert (T : timerOf Step2 st = true) by reflexivity.
  assert (P : deferredOf Step2 st = Pending) by reflexivity.
  split; [exact T|]. split; [exact P|].
  destruct (step_timeout_rejects_step 12345 (lit "/a.app") 5000
              [Connect; Data (lit "+$OK#9A"); Tick] Step2 T P)
    as (H1 & _ & H3 & _).
  split; [exact H1|].
  exact (proj2 (H3 Step1 eq_refl)).
Defined.

(** C10.  In every state of the session, whatever [initState] is: a
    reply that starts with [$W], [$X] or [$T] (after any number of [+])
    makes the listener call [socket.end()] and settles nothing; when the
    connection then ends, every expectation that was still unresolved is
    rejected with LaunchFailed and the others keep their outcome. *)
Theorem exit_reply_ends_connection
    (st : state) (k : nat) (m : exitMarker) (rest : jsstring) (n : stepId) :
  let st1 := handle (Data (pluses k ++ exitFrame m rest)) st in
  let st2 := handle End st1 in
  endCalled (socket st1) = true
  /\ initState st1 = initState st
  /\ deferredOf n st1 = deferredOf n st
  /\ deferredOf n st2 = reject LaunchFailed (deferredOf n st)
  /\ (isPending (deferredOf n st) = true -> deferredOf n st2 = Rejected LaunchFailed)
  /\ (isPending (deferredOf n st) = false -> deferredOf n st2 = deferredOf n st).
Proof.
  intros st1 st2.
  assert (E : endCalled (socket st1) = true /\ initState st1 = initState st
              /\ forall j, deferredOf j st1 = deferredOf j st).
  { unfold st1. cbn [handle]. rewrite onData_classify, classify_exitFrame.
    destruct m; (split; [reflexivity|]); (split; [reflexivity|]);
      intros j; destruct j; reflexivity. }
  destruct E as (E1 & E2 & E3).
  assert (D : deferredOf n st2 = reject LaunchFailed (deferredOf n st)).
  { unfold st2. cbn [handle]. unfold onEnd. rewrite rejectAll_deferredOf.
    rewrite E3. reflexivity. }
  split; [exact E1|]. split; [exact E2|]. split; [apply E3|]. split; [exact D|].
  split; intros H; rewrite D.
  - apply reject_pending. exact H.
  - apply reject_settled. exact H.
Qed.

(** ** The handshake: a well-behaved peer *)

Section WellBehavedPeer.

Variable portNumber : N.
Variable packagePath : jsstring.
Variable appLaunchStepTimeout : N.

Lemma connect_step :
  flush (handle Connect
           (startAppViaDebugger portNumber packagePath appLaunchStepTimeout))
  = awaitingLaunchAck (encodePath packagePath).
Proof. reflexivity. Qed.

Lemma launch_ack_step (ep : jsstring) (k : nat) :
  flush (handle (Data (pluses k ++ okFrame)) (awaitingLaunchAck ep))
  = awaitingThreadAck ep.
Proof.
  cbn [handle]. rewrite onData_classify, classify_okFrame. reflexivity.
Qed.

Lemma thread_ack_step (ep : jsstring) (k : nat) :
  flush (handle (Data (pluses k ++ okFrame)) (awaitingThreadAck ep))
  = awaitingContinueAck ep.
Proof.
  cbn [handle]. rewrite onData_classify, classify_okFrame. reflexivity.
Qed.

Lemma continue_output_step (ep : jsstring) (k : nat) (payload : jsstring) :
  forallb isHexChar payload = true ->
  flush (handle (Data (pluses k ++ outputFrame payload)) (awaitingContinueAck ep))
  = monitoring ep.
Proof.
  intros H. cbn [handle].
  rewrite onData_classify, (classify_outputFrame k payload H). reflexivity.
Qed.

Lemma continue_bare_ok_step (ep : jsstring) (k : nat) :
  flush (handle (Data (pluses k ++ okFrame)) (awaitingContinueAck ep))
  = socketWrite (lit "+") (awaitingContinueAck ep).
Proof.
  cbn [handle]. rewrite onData_classify, classify_okFrame. reflexivity.
Qed.

(** C1.  A peer that answers the launch-argument command with [$OK#9A],
    [Hc0] with [$OK#9A] and [c] with an output frame [$O...#CC], each
    after any number of [+]: the promise [startAppViaDebugger] returned is
    fulfilled with the socket, which has not been ended, and the session
    is in Monitoring.  Before the output frame the session awaits the
    continue acknowledgement with step 3 unresolved, and a bare [$OK#9A]
    there leaves step 3 unresolved and the session where it is. *)
Theorem handshake_completes (k1 k2 k3 k : nat) (payload : jsstring) :
  forallb isHexChar payload = true ->
  let s0 := startAppViaDebugger portNumber packagePath appLaunchStepTimeout in
  let s3 := runNode [Connect; Data (pluses k1 ++ okFrame);
                     Data (pluses k2 ++ okFrame)] s0 in
  let s4 := runNode [Data (pluses k3 ++ outputFrame payload)] s3 in
  let s3' := runNode [Data (pluses k ++ okFrame)] s3 in
  let sent3 := [launchCommand (encodePath packagePath);
                makeGdbCommand (lit "Hc0"); makeGdbCommand (lit "c")] in
  (handshakeStep s3 = Some AwaitingContinueAck
   /\ deferred3 s3 = Pending /\ promise s3 = Pending
   /\ commands s3 = sent3)
  /\ (handshakeStep s3' = Some AwaitingContinueAck
      /\ deferred3 s3' = Pending /\ promise s3' = Pending)
  /\ (promise s4 = Fulfilled TheSocket
      /\ deferred3 s4 = Fulfilled TheSocket
      /\ handshakeStep s4 = Some Monitoring
      /\ endCalled (socket s4) = false
      /\ commands s4 = sent3).
Proof.
  intros Hhex s0 s3 s4 s3' sent3.
  assert (E3 : s3 = awaitingContinueAck (encodePath packagePath)).
  { unfold s3, s0, runNode. cbn [fold_left].
    rewrite connect_step, launch_ack_step, thread_ack_step. reflexivity. }
  assert (E4 : s4 = monitoring (encodePath packagePath)).
  { unfold s4, runNode. cbn [fold_left]. rewrite E3.
    apply continue_output_step. exact Hhex. }
  assert (E3' : s3' = socketWrite (lit "+") (awaitingContinueAck (encodePath packagePath))).
  { unfold s3', runNode. cbn [fold_left]. rewrite E3.
    apply continue_bare_ok_step. }
  rewrite E3, E4, E3'.
  repeat split.
Qed.

End WellBehavedPeer.

Lemma handshake_completes_witness :
  forallb isHexChar [] = true
  /\ promise
       (runNode [Data (pluses 1 ++ outputFrame [])]
          (runNode [Connect; Data (pluses 1 ++ okFrame);
                    Data (pluses 1 ++ okFrame)]
             (startAppViaDebugger 12345 (lit "/a.app") 5000)))
     = Fulfilled TheSocket.
Proof.
  split; [reflexivity|].
  pose proof (handshake_completes 12345 (lit "/a.app") 5000 1 1 1 1 [] eq_refl) as H.
  cbv zeta in H. destruct H as (_ & _ & H & _).
  exact H.
Defined.

(** The replies of the repository's own test peer. *)
Example test_peer_replies :
  pluses 1 ++ okFrame = lit "+$OK#9A"
  /\ pluses 1 ++ outputFrame [] = lit "+$O#4F"
  /\ errorFrame (lit "23") = lit "$E23#AA".
Proof. repeat split. Qed.

(** The frames and the encoded path the repository's tests expect. *)
Example test_frames :
  makeGdbCommand (lit "Hc0") = lit "$Hc0#DB"
  /\ makeGdbCommand (lit "c") = lit "$c#63"
  /\ makeGdbCommand (lit "OK") = lit "$OK#9A".
Proof. repeat split. Qed.

Example test_encodePath :
  encodePath (lit "/private/var/mobile/Applications/042F57CA-9717-4655-8349-532093FFCF44/BlankCordovaApp1.app")
  = lit "2F707269766174652F7661722F6D6F62696C652F4170706C69636174696F6E732F30343246353743412D393731372D343635352D383334392D3533323039334646434634342F426C616E6B436F72646F7661417070312E617070".
Proof. vm_compute. reflexivity. Qed.

(** The test peer that reports an error to [c]: the promise is rejected
    with ["UnableToLaunchApp"]. *)
Example test_error_reply :
  promise
    (runNode [Connect; Data (lit "+$OK#9A"); Data (lit "+$OK#9A");
              Data (lit "+$E23#AA"); End]
       (startAppViaDebugger 12345 (lit "/a.app") 5000))
  = Rejected LaunchFailed.
Proof. vm_compute. reflexivity. Qed.

(** After the handshake, [$T91#00] makes the session end its socket and
    leaves the promise fulfilled. *)
Example test_stop_reply :
  let st := runNode [Connect; Data (lit "+$OK#9A"); Data (lit "+$OK#9A");
                     Data (lit "+$O#4F"); Data (lit "$T91#00")]
              (startAppViaDebugger 12345 (lit "/a.app") 5000) in
  promise st = Fulfilled TheSocket /\ endCalled (socket st) = true.
Proof. vm_compute. split; reflexivity. Qed.

(** * Further properties of the code *)

(** ** The handshake: acknowledgements *)

Lemma data_written (data : jsstring) (st : state) :
  written (socket (handle (Data data) st))
  = written (socket st)
    ++ (if charIs (stripPlus data) 0 "$" then [lit "+"] else []).
Proof.
  cbn [handle]. unfold onData.
  destruct (charIs (stripPlus data) 0 "$");
    [| rewrite app_nil_r; reflexivity].
  case_ifs; reflexivity.
Qed.

(** X1.  The data listener writes exactly one [+] for a chunk that,
    after its leading [+] characters, starts with [$], whatever follows
    and whatever the state of the session; for any other chunk it writes
    nothing.  The end, error and timer handlers write nothing. *)
Theorem every_frame_acknowledged
    (data err : jsstring) (n : stepId) (st : state) :
  sent (Data data) st
  = (if charIs (stripPlus data) 0 "$" then [lit "+"] else [])
  /\ sent End st = []
  /\ sent (Error err) st = []
  /\ sent (Timeout n) st = [].
Proof.
  split; [unfold sent; rewrite data_written; apply skipn_length_app|].
  assert (Q : forall e, written (socket (handle e st)) = written (socket st) ->
                        sent e st = []).
  { intros e H. unfold sent. rewrite H.
    rewrite <- (app_nil_r (written (socket st))) at 2. apply skipn_length_app. }
  repeat split; apply Q; cbn [handle].
  - reflexivity.
  - reflexivity.
  - destruct (timerOf n st); destruct n; reflexivity.
Qed.

(** ** The handshake: how an expectation changes *)

Lemma handle_deferred_cases (n : stepId) (e : event) (st : state) :
  deferredOf n (handle e st) = deferredOf n st
  \/ (deferredOf n (handle e st) = resolve TheSocket (deferredOf n st)
      /\ exists data, e = Data data /\ classify data = fulfilling n
                      /\ initState st = stepNumber n)
  \/ (deferredOf n (handle e st) = reject LaunchFailed (deferredOf n st)
      /\ (e = End \/ exists data, e = Data data /\ classify data = ReplyE))
  \/ (deferredOf n (handle e st) = reject LaunchTimeout (deferredOf n st)
      /\ e = Timeout n /\ timerOf n st = true)
  \/ (exists err, e = Error err
      /\ deferredOf n (handle e st) = reject (Err err) (deferredOf n st)).
Proof.
  destruct e as [| data | | err | m |]; cbn [handle].
  - left. case_ifs; destruct n; reflexivity.
  - rewrite onData_classify. destruct (classify data) eqn:C.
    1-3, 7-8: left; destruct n; reflexivity.
    + destruct (Nat.eqb (initState st) 1) eqn:E1;
        [| destruct (Nat.eqb (initState st) 2) eqn:E2].
      * apply Nat.eqb_eq in E1. destruct n; [| left; reflexivity ..].
        right. left. split; [reflexivity|]. exists data. auto.
      * apply Nat.eqb_eq in E2. destruct n; [left; reflexivity | | left; reflexivity].
        right. left. split; [reflexivity|]. exists data. auto.
      * left. destruct n; reflexivity.
    + destruct (Nat.eqb (initState st) 3) eqn:E3; [| left; destruct n; reflexivity].
      apply Nat.eqb_eq in E3. destruct n; [left; reflexivity ..|].
      right. left. split; [reflexivity|]. exists data. auto.
    + right. right. left. split; [destruct n; reflexivity|].
      right. exists data. auto.
  - right. right. left. split; [destruct n; reflexivity | auto].
  - right. right. right. right. exists err. split; [reflexivity|].
    destruct n; reflexivity.
  - destruct (timerOf m st) eqn:T; [| left; reflexivity].
    destruct n, m; try (left; reflexivity);
      right; right; right; left; auto.
  - left. unfold tick. case_ifs; destruct n; reflexivity.
Qed.

Lemma run_snoc (evs : list event) (e : event) (st : state) :
  run (evs ++ [e]) st = handle e (run evs st).
Proof. unfold run. rewrite fold_left_app. reflexivity. Qed.

Lemma rejected_by_reject {A} (r0 r : reason) (d : deferred A) :
  reject r0 d = Rejected r -> d = Rejected r \/ r = r0.
Proof. destruct d; simpl; intros H; [right | discriminate | left]; congruence. Qed.

Lemma rejected_by_resolve {A} (v : A) (r : reason) (d : deferred A) :
  resolve v d = Rejected r -> d = Rejected r.
Proof. destruct d; simpl; intros H; congruence. Qed.

Lemma run_rejected_reason
    (evs : list event) (st : state) (n : stepId) (r : reason) :
  deferredOf n (run evs st) = Rejected r ->
  deferredOf n st = Rejected r
  \/ r = LaunchFailed \/ r = LaunchTimeout
  \/ exists err, In (Error err) evs /\ r = Err err.
Proof.
  induction evs as [| e evs IH] using rev_ind; intros H; [left; exact H|].
  rewrite run_snoc in H.
  assert (Keep : deferredOf n (run evs st) = Rejected r ->
    deferredOf n st = Rejected r \/ r = LaunchFailed \/ r = LaunchTimeout
    \/ exists err, In (Error err) (evs ++ [e]) /\ r = Err err).
  { intros K. destruct (IH K) as [? | [? | [? | [err [Hin ?]]]]]; auto.
    right. right. right. exists err. split; [apply in_or_app; auto | assumption]. }
  destruct (handle_deferred_cases n e (run evs st))
    as [E | [[E _] | [[E _] | [[E _] | [err [Ee E]]]]]]; rewrite E in H.
  - auto.
  - apply rejected_by_resolve in H. auto.
  - apply rejected_by_reject in H. destruct H; auto.
  - apply rejected_by_reject in H. destruct H; auto.
  - apply rejected_by_reject in H. destruct H as [H | H]; [auto|].
    right. right. right. exists err. split; [| exact H].
    apply in_or_app. right. left. exact Ee.
Qed.

Lemma promise_rejected (st : state) (r : reason) :
  promise st = Rejected r -> exists n, deferredOf n st = Rejected r.
Proof.
  unfold promise. destruct (deferred1 st) eqn:D1; try discriminate.
  - destruct (then1Ran st); try discriminate.
    destruct (deferred2 st) eqn:D2; try discriminate.
    + destruct (then2Ran st); try discriminate.
      intros H. exists Step3. exact H.
    + intros H. exists Step2. cbn. congruence.
  - intros H. exists Step1. cbn. congruence.
Qed.

(** X2.  Whatever the events of a session, when the promise
    [startAppViaDebugger] returned is rejected, the reason is the string
    ["UnableToLaunchApp"], the string ["DeviceLaunchTimeout"], or the
    error of an ["error"] event of the socket that occurred. *)
Theorem rejection_reasons
    (portNumber : N) (packagePath : jsstring) (appLaunchStepTimeout : N)
    (evs : list event) (r : reason) :
  promise (run evs (startAppViaDebugger portNumber packagePath appLaunchStepTimeout))
  = Rejected r ->
  r = LaunchFailed \/ r = LaunchTimeout
  \/ exists err, In (Error err) evs /\ r = Err err.
Proof.
  intros H. apply promise_rejected in H. destruct H as [n H].
  apply run_rejected_reason in H. destruct H as [H | H]; [| exact H].
  destruct n; discriminate H.
Qed.

Lemma rejection_reasons_witness :
  promise (run [Connect; Timeout Step1]
             (startAppViaDebugger 12345 (lit "/a.app") 5000))
  = Rejected LaunchTimeout
  /\ (LaunchTimeout = LaunchFailed \/ LaunchTimeout = LaunchTimeout
      \/ exists err, In (Error err) [Connect; Timeout Step1]
                     /\ LaunchTimeout = Err err).
Proof.
  assert (H : promise (run [Connect; Timeout Step1]
                         (startAppViaDebugger 12345 (lit "/a.app") 5000))
              = Rejected LaunchTimeout) by reflexivity.
  split; [exact H|].
  exact (rejection_reasons 12345 (lit "/a.app") 5000
           [Connect; Timeout Step1] LaunchTimeout H).
Defined.

Lemma fulfilled_by_reject {A} (r : reason) (d : deferred A) :
  isFulfilled (reject r d) = isFulfilled d.
Proof. destruct d; reflexivity. Qed.

Lemma run_fulfilled_reply (evs : list event) (st : state) (n : stepId) :
  isFulfilled (deferredOf n (run evs st)) = true ->
  isFulfilled (deferredOf n st) = true
  \/ exists data, In (Data data) evs /\ classify data = fulfilling n.
Proof.
  induction evs as [| e evs IH] using rev_ind; intros H; [left; exact H|].
  rewrite run_snoc in H.
  assert (Keep : isFulfilled (deferredOf n (run evs st)) = true ->
    isFulfilled (deferredOf n st) = true
    \/ exists data, In (Data data) (evs ++ [e]) /\ classify data = fulfilling n).
  { intros K. destruct (IH K) as [? | [data [Hin ?]]]; auto.
    right. exists data. split; [apply in_or_app; auto | assumption]. }
  destruct (handle_deferred_cases n e (run evs st))
    as [E | [[E [data [Ee [C _]]]] | [[E _] | [[E _] | [err [Ee E]]]]]];
    rewrite E in H; try rewrite fulfilled_by_reject in H; auto.
  right. exists data. split; [| exact C].
  apply in_or_app. right. left. exact Ee.
Qed.

Lemma connectPending_handle (e : event) (st : state) :
  connectPending (socket (handle e st)) = connectPending (socket st)
  \/ e = Connect.
Proof.
  destruct e as [| data | | err | m |]; cbn [handle]; [right; reflexivity | left ..].
  - rewrite onData_classify. destruct (classify data); case_ifs; reflexivity.
  - reflexivity.
  - reflexivity.
  - case_ifs; destruct m; reflexivity.
  - unfold tick. case_ifs; reflexivity.
Qed.

Lemma run_connected (evs : list event) (st : state) :
  connectPending (socket (run evs st)) = false ->
  connectPending (socket st) = false \/ In Connect evs.
Proof.
  induction evs as [| e evs IH] using rev_ind; intros H; [left; exact H|].
  rewrite run_snoc in H.
  destruct (connectPending_handle e (run evs st)) as [E | E].
  - rewrite E in H. destruct (IH H) as [? | ?]; auto.
    right. apply in_or_app. auto.
  - right. apply in_or_app. right. left. auto.
Qed.

(** X3.  Whatever the events of a session, when the promise
    [startAppViaDebugger] returned is fulfilled, then it is fulfilled
    with the socket, all three expectations are fulfilled, [initState] is
    4, exactly the three commands were written in their order, and the
    events contain the connect, a chunk read as an [OK] reply and a chunk
    read as an output reply. *)
Theorem fulfilled_only_by_protocol
    (portNumber : N) (packagePath : jsstring) (appLaunchStepTimeout : N)
    (evs : list event) (v : sock) :
  let st := run evs (startAppViaDebugger portNumber packagePath appLaunchStepTimeout) in
  promise st = Fulfilled v ->
  v = TheSocket
  /\ (forall n, deferredOf n st = Fulfilled TheSocket)
  /\ initState st = 4%nat
  /\ commands st = [launchCommand (encodePath packagePath);
                    makeGdbCommand (lit "Hc0"); makeGdbCommand (lit "c")]
  /\ In Connect evs
  /\ (exists data, In (Data data) evs /\ classify data = ReplyOK)
  /\ (exists data, In (Data data) evs /\ classify data = ReplyO).
Proof.
  intros st H.
  assert (HI : Inv st) by (apply Inv_run, Inv_start).
  assert (Hp : encodedPath st = encodePath packagePath)
    by (unfold st; rewrite encodedPath_run; reflexivity).
  assert (F : isFulfilled (deferred1 st) = true /\ isFulfilled (deferred2 st) = true
              /\ isFulfilled (deferred3 st) = true).
  { unfold promise in H. destruct (deferred1 st); try discriminate H.
    destruct (then1Ran st); try discriminate H.
    destruct (deferred2 st); try discriminate H.
    destruct (then2Ran st); try discriminate H.
    rewrite H. auto. }
  destruct F as (F1 & F2 & F3).
  destruct HI as (Hc & Hi & _ & _ & H3 & _ & H5 & _).
  split; [destruct v; reflexivity|].
  split; [intros n; destruct n; apply fulfilled_value; assumption|].
  split; [apply H3; exact F3|].
  split; [rewrite Hc, (H3 F3), Hp; reflexivity|].
  split.
  - destruct (run_connected evs _ (H5 F1)) as [C | C]; [discriminate C | exact C].
  - split.
    + destruct (run_fulfilled_reply evs _ Step1 F1) as [C | C];
        [discriminate C | exact C].
    + destruct (run_fulfilled_reply evs _ Step3 F3) as [C | C];
        [discriminate C | exact C].
Qed.

Lemma fulfilled_only_by_protocol_witness :
  promise (run [Connect; Data (lit "+$OK#9A"); Tick; Data (lit "+$OK#9A"); Tick;
                Data (lit "+$O#4F")]
             (startAppViaDebugger 12345 (lit "/a.app") 5000))
  = Fulfilled TheSocket
  /\ In Connect [Connect; Data (lit "+$OK#9A"); Tick; Data (lit "+$OK#9A"); Tick;
                 Data (lit "+$O#4F")].
Proof.
  assert (H : promise (run [Connect; Data (lit "+$OK#9A"); Tick;
                            Data (lit "+$OK#9A"); Tick; Data (lit "+$O#4F")]
                         (startAppViaDebugger 12345 (lit "/a.app") 5000))
              = Fulfilled TheSocket) by reflexivity.
  split; [exact H|].
  destruct (fulfilled_only_by_protocol 12345 (lit "/a.app") 5000
              [Connect; Data (lit "+$OK#9A"); Tick; Data (lit "+$OK#9A"); Tick;
               Data (lit "+$O#4F")] TheSocket H)
    as (_ & _ & _ & _ & C & _).
  exact C.
Defined.

(** ** The handshake: [initState] and the promise over time *)

Lemma initState_handle (e : event) (st : state) :
  (initState st <= initState (handle e st) <= S (initState st))%nat.
Proof.
  destruct e as [| data | | err | m |]; cbn [handle].
  - case_ifs; cbn; lia.
  - rewrite onData_classify. destruct (classify data); case_ifs; cbn; lia.
  - unfold onEnd, rejectAll. cbn. lia.
  - unfold onError, rejectAll. cbn. lia.
  - case_ifs; destruct m; cbn; lia.
  - unfold tick. case_ifs; cbn; lia.
Qed.

Lemma initState_run (evs : list event) (st : state) :
  (initState st <= initState (run evs st) <= initState st + List.length evs)%nat.
Proof.
  unfold run. revert st.
  induction evs as [| e evs IH]; intros st; cbn [fold_left List.length]; [lia|].
  pose proof (initState_handle e st). specialize (IH (handle e st)). lia.
Qed.

(** X4.  [initState] only counts upwards: over any further events of
    a session it does not decrease, it grows by at most one per event,
    and it never exceeds 4. *)
Theorem initState_monotone
    (portNumber : N) (packagePath : jsstring) (appLaunchStepTimeout : N)
    (evs more : list event) :
  let s0 := startAppViaDebugger portNumber packagePath appLaunchStepTimeout in
  (initState (run evs s0) <= initState (run (evs ++ more) s0))%nat
  /\ (initState (run (evs ++ more) s0)
      <= initState (run evs s0) + List.length more)%nat
  /\ (initState (run evs s0) <= 4)%nat.
Proof.
  intros s0.
  assert (E : run (evs ++ more) s0 = run more (run evs s0))
    by (unfold run; apply fold_left_app).
  rewrite E. pose proof (initState_run more (run evs s0)) as M.
  split; [lia|]. split; [lia|].
  assert (HI : Inv (run evs s0)) by (apply Inv_run, Inv_start).
  destruct HI as (_ & Hi & _).
  destruct (connectPending (socket (run evs s0))); [lia|].
  destruct (negb (then1Ran (run evs s0))); [lia|].
  destruct (negb (then2Ran (run evs s0))); lia.
Qed.

Lemma thenRan_handle (e : event) (st : state) :
  (then1Ran st = true -> then1Ran (handle e st) = true)
  /\ (then2Ran st = true -> then2Ran (handle e st) = true).
Proof.
  destruct e as [| data | | err | m |]; cbn [handle].
  - case_ifs; auto.
  - rewrite onData_classify. destruct (classify data); case_ifs; auto.
  - auto.
  - auto.
  - case_ifs; destruct m; auto.
  - unfold tick. case_ifs; cbn; auto.
Qed.

Lemma promise_handle_settled (e : event) (st : state) :
  isPending (promise st) = false -> promise (handle e st) = promise st.
Proof.
  intros H. unfold promise in *.
  destruct (thenRan_handle e st) as [R1 R2].
  pose proof (handle_settled Step1 e st) as S1.
  pose proof (handle_settled Step2 e st) as S2.
  pose proof (handle_settled Step3 e st) as S3.
  cbn [deferredOf] in S1, S2, S3.
  destruct (deferred1 st) eqn:D1; try discriminate H;
    rewrite (S1 eq_refl); [| reflexivity].
  destruct (then1Ran st); try discriminate H. rewrite (R1 eq_refl).
  destruct (deferred2 st) eqn:D2; try discriminate H;
    rewrite (S2 eq_refl); [| reflexivity].
  destruct (then2Ran st); try discriminate H. rewrite (R2 eq_refl).
  apply S3. exact H.
Qed.

(** X5.  From any state of a session: once the promise
    [startAppViaDebugger] returned is settled, no sequence of later
    events (replies, end, errors, timers, callbacks) changes its
    outcome. *)
Theorem promise_settles_once (evs : list event) (st : state) :
  isPending (promise st) = false -> promise (run evs st) = promise st.
Proof.
  revert st. induction evs as [| e evs IH]; intros st H; [reflexivity|].
  simpl. unfold run in IH. rewrite IH.
  - apply promise_handle_settled. exact H.
  - rewrite promise_handle_settled by exact H. exact H.
Qed.

Lemma promise_settles_once_witness :
  isPending (promise (run [Connect; Timeout Step1]
                        (startAppViaDebugger 12345 (lit "/a.app") 5000))) = false
  /\ promise (run [Data (lit "+$OK#9A"); Tick; End]
                (run [Connect; Timeout Step1]
                   (startAppViaDebugger 12345 (lit "/a.app") 5000)))
     = promise (run [Connect; Timeout Step1]
                  (startAppViaDebugger 12345 (lit "/a.app") 5000)).
Proof.
  split; [reflexivity|].
  exact (promise_settles_once [Data (lit "+$OK#9A"); Tick; End]
           (run [Connect; Timeout Step1]
              (startAppViaDebugger 12345 (lit "/a.app") 5000)) eq_refl).
Defined.

(** ** The handshake: no step waits without its timer *)

Lemma TimerInv_start (portNumber : N) (packagePath : jsstring) (appLaunchStepTimeout : N) :
  TimerInv (startAppViaDebugger portNumber packagePath appLaunchStepTimeout).
Proof. unfold TimerInv. cbn. repeat split; intros; discriminate. Qed.

Ltac timer_solve :=
  cbn -[launchCommand makeGdbCommand lit] in *;
  repeat split; intros;
  rewrite ?resolve_not_pending, ?reject_not_pending in *;
  try discriminate; auto.

Lemma TimerInv_handle (e : event) (st : state) : TimerInv st -> TimerInv (handle e st).
Proof.
  intros HT. destruct st as [p i es eg d1 d2 d3 [w ec cp] t1 t2 t3 r1 r2].
  unfold TimerInv in *. cbn in HT. destruct HT as (T1 & T2 & T3).
  destruct e as [| data | | err | m |]; cbn [handle].
  - cbn [socket connectPending]. destruct cp; unfold onConnect; timer_solve.
  - rewrite onData_classify. destruct (classify data); cbn [initState];
      case_ifs; timer_solve.
  - unfold onEnd. timer_solve.
  - unfold onError. timer_solve.
  - destruct m; cbn [timerOf timer1 timer2 timer3];
      [destruct t1 | destruct t2 | destruct t3]; timer_solve.
  - unfold tick, then1, then2. cbn [deferred1 deferred2 then1Ran then2Ran].
    case_ifs; timer_solve.
Qed.

Lemma flush_quiescent (st : state) : Inv st -> quiescent (flush st) = true.
Proof.
  intros (_ & _ & H1 & H2 & _ & H4 & _).
  destruct st as [p i es eg d1 d2 d3 k t1 t2 t3 r1 r2].
  cbn in H1, H2, H4. unfold flush, tick, quiescent, then1, then2.
  destruct d1, d2, r1, r2; cbn in *;
    try reflexivity;
    try (specialize (H1 eq_refl); discriminate H1);
    try (specialize (H4 eq_refl); discriminate H4);
    try (destruct (H2 eq_refl) as [? ?]; discriminate).
Qed.

Lemma runNode_snoc (evs : list event) (e : event) (st : state) :
  runNode (evs ++ [e]) st = flush (handle e (runNode evs st)).
Proof. unfold runNode. rewrite fold_left_app. reflexivity. Qed.

Lemma runNode_invariants
    (portNumber : N) (packagePath : jsstring) (appLaunchStepTimeout : N)
    (evs : list event) :
  let st := runNode evs (startAppViaDebugger portNumber packagePath appLaunchStepTimeout) in
  Inv st /\ TimerInv st /\ quiescent st = true.
Proof.
  induction evs as [| e evs IH] using rev_ind.
  - split; [apply Inv_start|]. split; [apply TimerInv_start | reflexivity].
  - cbv zeta in *. rewrite runNode_snoc. destruct IH as (HI & HT & _).
    assert (HI1 : Inv (handle e (runNode evs
              (startAppViaDebugger portNumber packagePath appLaunchStepTimeout))))
      by (apply Inv_handle; exact HI).
    split; [| split].
    + unfold flush. apply (Inv_handle Tick), (Inv_handle Tick). exact HI1.
    + unfold flush. apply (TimerInv_handle Tick), (TimerInv_handle Tick).
      apply TimerInv_handle. exact HT.
    + apply flush_quiescent. exact HI1.
Qed.

Lemma pending_cases (st : state) :
  quiescent st = true -> promise st = Pending ->
  (deferred1 st = Pending /\ awaited st = Some Step1)
  \/ (isFulfilled (deferred1 st) = true /\ then1Ran st = true
      /\ deferred2 st = Pending /\ awaited st = Some Step2)
  \/ (isFulfilled (deferred1 st) = true /\ then1Ran st = true
      /\ isFulfilled (deferred2 st) = true /\ then2Ran st = true
      /\ deferred3 st = Pending /\ awaited st = Some Step3).
Proof.
  destruct st as [p i es eg d1 d2 d3 k t1 t2 t3 r1 r2].
  unfold quiescent, promise, awaited. cbn.
  destruct d1, d2, d3, r1, r2; cbn; intros Q P;
    try discriminate Q; try discriminate P; auto 10.
Qed.

Lemma pending_is (d : deferred sock) : d = Pending -> isPending d = true.
Proof. intros ->. reflexivity. Qed.

(** X6.  In every state a session reaches under Node after the
    connect callback has run: while the returned promise is unsettled,
    the timer of the step the session waits for is running, and when it
    fires the promise is rejected with ["DeviceLaunchTimeout"].  So a
    connected session cannot wait for ever. *)
Theorem awaited_step_has_timer
    (portNumber : N) (packagePath : jsstring) (appLaunchStepTimeout : N)
    (evs : list event) :
  let st := runNode evs (startAppViaDebugger portNumber packagePath appLaunchStepTimeout) in
  connectPending (socket st) = false ->
  promise st = Pending ->
  exists n,
    awaited st = Some n
    /\ deferredOf n st = Pending
    /\ timerOf n st = true
    /\ promise (flush (handle (Timeout n) st)) = Rejected LaunchTimeout.
Proof.
  intros st Hcp Hp.
  destruct (runNode_invariants portNumber packagePath appLaunchStepTimeout evs)
    as (_ & HT & HQ). fold st in HT, HQ.
  destruct HT as (T1 & T2 & T3).
  destruct (pending_cases st HQ Hp)
    as [[D1 A] | [(F1 & R1 & D2 & A) | (F1 & R1 & F2 & R2 & D3 & A)]].
  - exists Step1. specialize (T1 Hcp (pending_is _ D1)).
    repeat split; auto.
    cbn [handle timerOf]. rewrite T1.
    destruct st as [p i es eg d1 d2 d3 k t1 t2 t3 r1 r2]. cbn in *. subst d1.
    reflexivity.
  - exists Step2. specialize (T2 R1 (pending_is _ D2)).
    repeat split; auto.
    cbn [handle timerOf]. rewrite T2.
    destruct st as [p i es eg d1 d2 d3 k t1 t2 t3 r1 r2]. cbn in *. subst d2 r1.
    destruct d1; try discriminate F1. reflexivity.
  - exists Step3. specialize (T3 R2 (pending_is _ D3)).
    repeat split; auto.
    cbn [handle timerOf]. rewrite T3.
    destruct st as [p i es eg d1 d2 d3 k t1 t2 t3 r1 r2]. cbn in *. subst d3 r1 r2.
    destruct d1; try discriminate F1. destruct d2; try discriminate F2. reflexivity.
Qed.

Lemma awaited_step_has_timer_witness :
  connectPending
    (socket (runNode [Connect; Data (lit "+$OK#9A")]
               (startAppViaDebugger 12345 (lit "/a.app") 5000))) = false
  /\ promise (runNode [Connect; Data (lit "+$OK#9A")]
                (startAppViaDebugger 12345 (lit "/a.app") 5000)) = Pending
  /\ exists n,
       awaited (runNode [Connect; Data (lit "+$OK#9A")]
                  (startAppViaDebugger 12345 (lit "/a.app") 5000)) = Some n
       /\ timerOf n (runNode [Connect; Data (lit "+$OK#9A")]
                       (startAppViaDebugger 12345 (lit "/a.app") 5000)) = true.
Proof.
  split; [reflexivity|]. split; [reflexivity|].
  destruct (awaited_step_has_timer 12345 (lit "/a.app") 5000
              [Connect; Data (lit "+$OK#9A")] eq_refl eq_refl)
    as [n (A & _ & T & _)].
  exists n. split; [exact A | exact T].
Defined.

(** X7.  In every state a session reaches under Node: while the
    returned promise is unsettled, the end of the connection rejects it
    with ["UnableToLaunchApp"], and an error of the socket rejects it
    with that error. *)
Theorem end_or_error_rejects_pending_promise
    (portNumber : N) (packagePath : jsstring) (appLaunchStepTimeout : N)
    (evs : list event) (err : jsstring) :
  let st := runNode evs (startAppViaDebugger portNumber packagePath appLaunchStepTimeout) in
  promise st = Pending ->
  promise (flush (handle End st)) = Rejected LaunchFailed
  /\ promise (flush (handle (Error err) st)) = Rejected (Err err).
Proof.
  intros st Hp.
  destruct (runNode_invariants portNumber packagePath appLaunchStepTimeout evs)
    as (_ & _ & HQ). fold st in HQ.
  destruct (pending_cases st HQ Hp)
    as [[D1 _] | [(F1 & R1 & D2 & _) | (F1 & R1 & F2 & R2 & D3 & _)]];
    destruct st as [p i es eg d1 d2 d3 k t1 t2 t3 r1 r2]; cbn in *; subst.
  - split; reflexivity.
  - destruct d1; try discriminate F1. split; reflexivity.
  - destruct d1; try discriminate F1. destruct d2; try discriminate F2.
    split; reflexivity.
Qed.

Lemma end_or_error_rejects_pending_promise_witness :
  promise (runNode [Connect; Data (lit "+$OK#9A")]
             (startAppViaDebugger 12345 (lit "/a.app") 5000)) = Pending
  /\ promise (flush (handle End
                (runNode [Connect; Data (lit "+$OK#9A")]
                   (startAppViaDebugger 12345 (lit "/a.app") 5000))))
     = Rejected LaunchFailed.
Proof.
  split; [reflexivity|].
  exact (proj1 (end_or_error_rejects_pending_promise 12345 (lit "/a.app") 5000
                  [Connect; Data (lit "+$OK#9A")] [] eq_refl)).
Defined.

(** ** The handshake: only the first characters of a chunk are read *)

Lemma classify_same_onData (a b : jsstring) (st : state) :
  classify a = classify b ->
  (classify a = ReplyW \/ classify a = ReplyX ->
   substring (stripPlus a) 2 4 = substring (stripPlus b) 2 4) ->
  onData a st = onData b st.
Proof.
  intros C S. rewrite !onData_classify, <- C.
  destruct (classify a); try reflexivity; rewrite S; auto.
Qed.

(** X8.  The data listener reads no more than the first characters
    after the leading [+]s: it checks neither the checksum nor that the
    frame is complete.  Any chunk that goes on with [$OK] is handled like
    [$OK#9A], with [$E] like a bare [$E], with [$T] like a bare [$T], and
    with [$O] like a bare [$O] unless a [K] follows. *)
Theorem frames_read_by_prefix (k : nat) (tail : jsstring) (st : state) :
  handle (Data (pluses k ++ lit "$OK" ++ tail)) st = handle (Data (lit "$OK#9A")) st
  /\ handle (Data (pluses k ++ lit "$E" ++ tail)) st = handle (Data (lit "$E")) st
  /\ handle (Data (pluses k ++ lit "$T" ++ tail)) st = handle (Data (lit "$T")) st
  /\ (charIs tail 0 "K" = false ->
      handle (Data (pluses k ++ lit "$O" ++ tail)) st = handle (Data (lit "$O")) st).
Proof.
  cbn [handle].
  split; [| split; [| split]].
  - apply classify_same_onData.
    + unfold classify. rewrite stripPlus_pluses. reflexivity.
    + unfold classify. rewrite stripPlus_pluses. cbn. intros [H | H]; discriminate H.
  - apply classify_same_onData.
    + unfold classify. rewrite stripPlus_pluses. reflexivity.
    + unfold classify. rewrite stripPlus_pluses. cbn. intros [H | H]; discriminate H.
  - apply classify_same_onData.
    + unfold classify. rewrite stripPlus_pluses. reflexivity.
    + unfold classify. rewrite stripPlus_pluses. cbn. intros [H | H]; discriminate H.
  - intros HK.
    assert (C : classify (pluses k ++ lit "$O" ++ tail) = ReplyO).
    { unfold classify. rewrite stripPlus_pluses.
      destruct tail as [| c tail]; [reflexivity|].
      unfold charIs in HK. cbn in HK. unfold charIs, substring. cbn.
      unfold JS.eqb in *.
      destruct (list_eq_dec N.eq_dec [c] [75]) as [E | E]; [discriminate HK|].
      destruct (list_eq_dec N.eq_dec [79; c] [79; 75]) as [E2 | E2]; [| reflexivity].
      exfalso. apply E. injection E2 as ->. reflexivity. }
    apply classify_same_onData.
    + rewrite C. reflexivity.
    + rewrite C. intros [H | H]; discriminate H.
Qed.

(** ** Framing and encoding: distinct inputs stay distinct *)

Lemma makeGdbCommand_shape (c : jsstring) :
  exists x y, makeGdbCommand c = 36 :: c ++ [35; x; y].
Proof.
  assert (Hlt : charCodeSum c mod 256 < 256) by (apply N.mod_lt; lia).
  exists (upperHexDigit ((charCodeSum c mod 256) / 16)),
         (upperHexDigit ((charCodeSum c mod 256) mod 16)).
  unfold makeGdbCommand. rewrite sumCharCodes_spec.
  pose proof (padded_hex_byte _ Hlt) as P. cbv zeta in P. cbv zeta.
  rewrite P. reflexivity.
Qed.

Lemma app_tail3_inj {A} (l1 l2 : list A) (a1 b1 c1 a2 b2 c2 : A) :
  l1 ++ [a1; b1; c1] = l2 ++ [a2; b2; c2] -> l1 = l2.
Proof.
  intros H.
  change (l1 ++ [a1; b1; c1]) with (l1 ++ [a1] ++ [b1] ++ [c1]) in H.
  change (l2 ++ [a2; b2; c2]) with (l2 ++ [a2] ++ [b2] ++ [c2]) in H.
  rewrite !app_assoc in H.
  apply app_inj_tail in H. destruct H as [H _].
  apply app_inj_tail in H. destruct H as [H _].
  apply app_inj_tail in H. destruct H as [H _]. exact H.
Qed.

(** X9.  A frame is four characters longer than its command, and two
    different commands never give the same frame. *)
Theorem makeGdbCommand_injective (c1 c2 : jsstring) :
  List.length (makeGdbCommand c1) = (List.length c1 + 4)%nat
  /\ (makeGdbCommand c1 = makeGdbCommand c2 -> c1 = c2).
Proof.
  destruct (makeGdbCommand_shape c1) as [x1 [y1 E1]].
  destruct (makeGdbCommand_shape c2) as [x2 [y2 E2]].
  rewrite E1, E2. split.
  - cbn [List.length]. rewrite length_app. cbn [List.length]. lia.
  - intros H. injection H as H. apply app_tail3_inj in H. exact H.
Qed.

Lemma upperHexDigit_inj (a b : N) :
  a < 16 -> b < 16 -> upperHexDigit a = upperHexDigit b -> a = b.
Proof.
  unfold upperHexDigit. intros Ha Hb.
  destruct (a <? 10) eqn:Ea; destruct (b <? 10) eqn:Eb; intros H;
    try apply N.ltb_lt in Ea; try apply N.ltb_ge in Ea;
    try apply N.ltb_lt in Eb; try apply N.ltb_ge in Eb; lia.
Qed.

Lemma encode_two_digits (c : N) :
  16 <= c -> c < 256 ->
  (if isLineTerminator c then [c] else toUpperCase (toString16 c))
  = [upperHexDigit (c / 16); upperHexDigit (c mod 16)].
Proof.
  intros Hlo Hhi.
  assert (T : isLineTerminator c = false).
  { unfold isLineTerminator.
    repeat (apply orb_false_iff; split); apply N.eqb_neq; lia. }
  rewrite T, (toString16_byte c Hlo Hhi). cbn [toUpperCase map].
  rewrite !upperUnit_digitChar; [reflexivity | |].
  - apply N.mod_lt. lia.
  - apply N.Div0.div_lt_upper_bound. lia.
Qed.

Lemma encodePath_cons (c : N) (s : jsstring) :
  16 <= c -> c < 256 ->
  encodePath (c :: s)
  = upperHexDigit (c / 16) :: upperHexDigit (c mod 16) :: encodePath s.
Proof.
  intros Hlo Hhi. unfold encodePath, replaceDot. cbn [flat_map].
  rewrite (encode_two_digits c Hlo Hhi). reflexivity.
Qed.

Lemma twoDigitChars_cons (c : N) (s : jsstring) :
  twoDigitChars (c :: s) = true -> 16 <= c /\ c < 256 /\ twoDigitChars s = true.
Proof.
  unfold twoDigitChars. cbn [forallb]. intros H.
  apply andb_true_iff in H. destruct H as [H Hs].
  apply andb_true_iff in H. destruct H as [H1 H2].
  apply N.leb_le in H1. apply N.ltb_lt in H2. auto.
Qed.

(** X10.  On paths whose characters all have codes 16 to 255 (every
    printable ASCII path): the encoded path has exactly two characters
    per character, all of them uppercase hexadecimal digits, and two
    different paths never have the same encoding. *)
Theorem encodePath_unambiguous (s1 s2 : jsstring) :
  twoDigitChars s1 = true ->
  twoDigitChars s2 = true ->
  List.length (encodePath s1) = (2 * List.length s1)%nat
  /\ forallb isUpperHexDigit (encodePath s1) = true
  /\ (encodePath s1 = encodePath s2 -> s1 = s2).
Proof.
  intros H1 H2. split; [| split].
  - clear H2 s2. induction s1 as [| c s IH]; [reflexivity|].
    apply twoDigitChars_cons in H1. destruct H1 as (Hlo & Hhi & Hs).
    rewrite (encodePath_cons c s Hlo Hhi). cbn [List.length].
    rewrite (IH Hs). lia.
  - clear H2 s2. induction s1 as [| c s IH]; [reflexivity|].
    apply twoDigitChars_cons in H1. destruct H1 as (Hlo & Hhi & Hs).
    rewrite (encodePath_cons c s Hlo Hhi). cbn [forallb].
    rewrite (IH Hs), !upperHexDigit_ok; [reflexivity | |].
    + apply N.mod_lt. lia.
    + apply N.Div0.div_lt_upper_bound. lia.
  - revert s2 H2. induction s1 as [| c s IH]; intros s2 H2 E.
    + destruct s2 as [| c2 s2]; [reflexivity|].
      apply twoDigitChars_cons in H2. destruct H2 as (Hlo & Hhi & _).
      rewrite (encodePath_cons c2 s2 Hlo Hhi) in E. discriminate E.
    + apply twoDigitChars_cons in H1. destruct H1 as (Hlo & Hhi & Hs).
      rewrite (encodePath_cons c s Hlo Hhi) in E.
      destruct s2 as [| c2 s2]; [discriminate E|].
      apply twoDigitChars_cons in H2. destruct H2 as (Hlo2 & Hhi2 & Hs2).
      rewrite (encodePath_cons c2 s2 Hlo2 Hhi2) in E.
      injection E as Ea Eb Er.
      apply upperHexDigit_inj in Ea;
        [| apply N.Div0.div_lt_upper_bound; lia ..].
      apply upperHexDigit_inj in Eb; [| apply N.mod_lt; lia ..].
      f_equal; [| apply IH; assumption].
      rewrite (N.div_mod c 16), (N.div_mod c2 16) by lia. lia.
Qed.

Lemma encodePath_unambiguous_witness :
  twoDigitChars (lit "/a.app") = true
  /\ twoDigitChars (lit "/b.app") = true
  /\ List.length (encodePath (lit "/a.app")) = (2 * List.length (lit "/a.app"))%nat.
Proof.
  split; [reflexivity|]. split; [reflexivity|].
  exact (proj1 (encodePath_unambiguous (lit "/a.app") (lit "/b.app")
                  eq_refl eq_refl)).
Defined.

(** ** The image mount: when the promise settles *)

(** X11.  With the utility spawned, [mountDeveloperImage] stays
    unsettled while only output arrives.  An exit code of 0 resolves it
    whatever the output says; an ["error"] event of the process rejects
    it with that error; and whatever comes after the first of the two is
    ignored.  A failure of [getDiskImage] is handed on as it is. *)
Theorem mount_settles_at_close_or_error
    (path : jsstring) (chunks : list jsstring) (err : jsstring)
    (later : list Mount.event) (r : reason) :
  Mount.mountDeveloperImage (Fulfilled path) (map Mount.StdoutData chunks)
  = Pending
  /\ Mount.mountDeveloperImage (Fulfilled path)
       (map Mount.StdoutData chunks ++ Mount.Close (Some 0%Z) :: later)
     = Fulfilled tt
  /\ Mount.mountDeveloperImage (Fulfilled path)
       (map Mount.StdoutData chunks ++ Mount.Error err :: later)
     = Rejected (Err err)
  /\ Mount.mountDeveloperImage (Rejected r)
       (map Mount.StdoutData chunks ++ later)
     = Rejected r.
Proof.
  unfold Mount.mountDeveloperImage.
  split; [rewrite mount_run_stdout; reflexivity|].
  split; [| split; [| reflexivity]].
  - unfold Mount.run. rewrite fold_left_app.
    fold (Mount.run (map Mount.StdoutData chunks) Mount.spawned).
    rewrite mount_run_stdout. cbn [fold_left Mount.handle].
    apply mount_run_settled. reflexivity.
  - unfold Mount.run. rewrite fold_left_app.
    fold (Mount.run (map Mount.StdoutData chunks) Mount.spawned).
    rewrite mount_run_stdout. cbn [fold_left Mount.handle].
    apply mount_run_settled. reflexivity.
Qed.

(** ** The disk image search *)

Lemma trimStart_head (s : jsstring) (c : N) (r : jsstring) :
  trimStart s = c :: r -> isStrWhiteSpace c = false.
Proof.
  induction s as [| x s IH]; [discriminate|].
  cbn [trimStart]. destruct (isStrWhiteSpace x) eqn:E; [exact IH|].
  intros H. injection H as <- _. exact E.
Qed.

Lemma trimStart_suffix (s : jsstring) : exists pre, s = pre ++ trimStart s.
Proof.
  induction s as [| x s [pre IH]]; [exists []; reflexivity|].
  cbn [trimStart]. destruct (isStrWhiteSpace x).
  - exists (x :: pre). cbn. rewrite <- IH. reflexivity.
  - exists []. reflexivity.
Qed.

Lemma trimEnd_prefix (s : jsstring) : exists suf, s = trimEnd s ++ suf.
Proof.
  unfold trimEnd. destruct (trimStart_suffix (rev s)) as [pre H].
  exists (rev pre). rewrite <- rev_app_distr, <- H, rev_involutive. reflexivity.
Qed.

Lemma trimEnd_last (s front : jsstring) (c : N) :
  trimEnd s = front ++ [c] -> isStrWhiteSpace c = false.
Proof.
  unfold trimEnd. intros H.
  apply (f_equal (@rev N)) in H.
  rewrite rev_involutive, rev_app_distr in H. cbn in H.
  exact (trimStart_head _ _ _ H).
Qed.

Lemma trim_ends (s : jsstring) :
  (forall c r, trim s = c :: r -> isStrWhiteSpace c = false)
  /\ (forall front c, trim s = front ++ [c] -> isStrWhiteSpace c = false)
  /\ (forall x, In x (trim s) -> In x s).
Proof.
  unfold trim. split; [| split].
  - intros c r H. destruct (trimEnd_prefix (trimStart s)) as [suf E].
    rewrite H in E. exact (trimStart_head s c (r ++ suf) E).
  - intros front c H. exact (trimEnd_last _ _ _ H).
  - intros x H. destruct (trimEnd_prefix (trimStart s)) as [suf E].
    destruct (trimStart_suffix s) as [pre E2].
    rewrite E2, E. apply in_or_app. right. apply in_or_app. left. exact H.
Qed.

Lemma firstLine_no_line_feed (s : jsstring) : ~ In 10 (firstLine s).
Proof.
  induction s as [| c s IH]; [intros []|].
  cbn [firstLine]. destruct (c =? 10) eqn:E; [intros []|].
  apply N.eqb_neq in E. intros [H | H]; [congruence | exact (IH H)].
Qed.

Lemma find_run_settled (evs : list DiskImage.event) (d : deferred jsstring) :
  isPending d = false -> DiskImage.run evs d = d.
Proof.
  revert d. induction evs as [| e evs IH]; intros d H; [reflexivity|].
  cbn [DiskImage.run fold_left].
  assert (E : DiskImage.handle e d = d).
  { destruct e; cbn; case_ifs; rewrite ?reject_settled, ?resolve_settled; auto. }
  rewrite E. apply IH. exact H.
Qed.

(** X12.  With both lookups done, the first event of the spawned
    [find] decides [getDiskImage].  If it is the close of the process,
    the promise is rejected with FailedFindDeveloperDiskImage.  If it is
    output, only the first line of that first chunk counts: when it is
    blank the promise is rejected, otherwise it is fulfilled with that
    line trimmed, which is not empty, has no line feed and no white
    space at either end.  Later output and the exit code change
    nothing. *)
Theorem getDiskImage_first_event_decides
    (version e1 sdk e2 : jsstring) (first : bool) (data : jsstring)
    (code : option Z) (later : list DiskImage.event) :
  let image := DiskImage.getDiskImage (ExecOk version e1) (ExecOk sdk e2) first in
  let path := trim (firstLine data) in
  image [] = Pending
  /\ image (DiskImage.FindClose code :: later) = Rejected FailedFindDeveloperDiskImage
  /\ (path = [] ->
      image (DiskImage.FindData data :: later) = Rejected FailedFindDeveloperDiskImage)
  /\ (path <> [] ->
      image (DiskImage.FindData data :: later) = Fulfilled path
      /\ ~ In 10 path
      /\ (forall c r, path = c :: r -> isStrWhiteSpace c = false)
      /\ (forall front c, path = front ++ [c] -> isStrWhiteSpace c = false)).
Proof.
  intros image path. unfold image, DiskImage.getDiskImage.
  cbn [DiskImage.versionInfo DiskImage.pathInfo].
  split; [reflexivity|].
  split; [cbn [DiskImage.run fold_left DiskImage.handle reject];
          apply find_run_settled; reflexivity|].
  split.
  - intros E. cbn [DiskImage.run fold_left DiskImage.handle]. fold path.
    rewrite E. cbn. apply find_run_settled. reflexivity.
  - intros NE. destruct (trim_ends (firstLine data)) as (Hh & Hl & Hin).
    split; [| split; [| split]].
    + cbn [DiskImage.run fold_left DiskImage.handle]. fold path.
      rewrite (neq_eqb _ _ NE). cbn. apply find_run_settled. reflexivity.
    + intros H. apply Hin in H. exact (firstLine_no_line_feed data H).
    + exact Hh.
    + exact Hl.
Qed.

(** ** The debug proxy: restarting *)

Lemma proxy_handle_global (e : Proxy.event) (st : Proxy.state) :
  Proxy.global (Proxy.handle e st) = Proxy.global st
  /\ Proxy.killed (Proxy.handle e st) = Proxy.killed st.
Proof.
  destruct e; cbn [Proxy.handle]; case_ifs; split; reflexivity.
Qed.

Lemma proxy_run_global (evs : list Proxy.event) (st : Proxy.state) :
  Proxy.global (Proxy.run evs st) = Proxy.global st
  /\ Proxy.killed (Proxy.run evs st) = Proxy.killed st.
Proof.
  revert st. induction evs as [| e evs IH]; intros st; [split; reflexivity|].
  cbn [Proxy.run fold_left]. destruct (proxy_handle_global e st) as [G K].
  destruct (IH (Proxy.handle e st)) as [G' K']. unfold Proxy.run in G', K'.
  rewrite G', K'. auto.
Qed.

Lemma proxy_start_store
    (proxyPort : N) (mount : deferred unit) (child : Proxy.ChildProcess)
    (g : Proxy.SharedStateGlobal) :
  let st := Proxy.startDebugProxy proxyPort mount child g in
  Proxy.killed st
  = match Proxy.nativeDebuggerProxyInstance g with
    | Some old => [(old, lit "SIGHUP")]
    | None => []
    end
  /\ Proxy.nativeDebuggerProxyInstance (Proxy.global st)
     = (if isFulfilled mount then Some child else None).
Proof.
  unfold Proxy.startDebugProxy.
  destruct g as [[old |] |], mount; cbn; split; reflexivity.
Qed.

(** X13.  [startDebugProxy] sends SIGHUP to the proxy stored in the
    shared state, if there is one, and to nothing else.  Afterwards the
    shared state holds the newly spawned process when the mount went
    through, and no process at all when it did not: the old one is never
    left stored.  Events of the spawned process change neither. *)
Theorem startDebugProxy_replaces_stored_proxy
    (proxyPort : N) (mount : deferred unit) (child : Proxy.ChildProcess)
    (g : Proxy.SharedStateGlobal) (evs : list Proxy.event) :
  let st := Proxy.run evs (Proxy.startDebugProxy proxyPort mount child g) in
  Proxy.killed st
  = match Proxy.nativeDebuggerProxyInstance g with
    | Some old => [(old, lit "SIGHUP")]
    | None => []
    end
  /\ Proxy.nativeDebuggerProxyInstance (Proxy.global st)
     = (if isFulfilled mount then Some child else None).
Proof.
  intros st. unfold st.
  destruct (proxy_run_global evs (Proxy.startDebugProxy proxyPort mount child g))
    as [G K].
  rewrite G, K. apply proxy_start_store.
Qed.

(** X14.  When the mount fails, [startDebugProxy] is rejected with
    the reason of the mount, and stays so whatever events follow: no
    proxy was spawned. *)
Theorem startDebugProxy_mount_failure
    (proxyPort : N) (r : reason) (child : Proxy.ChildProcess)
    (g : Proxy.SharedStateGlobal) (evs : list Proxy.event) :
  let st := Proxy.run evs (Proxy.startDebugProxy proxyPort (Rejected r) child g) in
  Proxy.promise st = Rejected r
  /\ Wrapper.startDebugProxy st = Rejected r
  /\ Proxy.nativeDebuggerProxyInstance (Proxy.global st) = None.
Proof.
  intros st.
  assert (M : forall evs0 s, Proxy.mounted (Proxy.run evs0 s) = Proxy.mounted s).
  { induction evs0 as [| e evs0 IH]; intros s; [reflexivity|].
    cbn [Proxy.run fold_left]. unfold Proxy.run in IH. rewrite IH.
    destruct e; cbn [Proxy.handle]; case_ifs; reflexivity. }
  assert (P : Proxy.promise st = Rejected r).
  { unfold Proxy.promise, st. rewrite M. unfold Proxy.startDebugProxy.
    destruct (Proxy.nativeDebuggerProxyInstance g); reflexivity. }
  split; [exact P|]. split; [exact P|].
  unfold st.
  destruct (proxy_run_global evs (Proxy.startDebugProxy proxyPort (Rejected r) child g))
    as [G _].
  rewrite G.
  exact (proj2 (proxy_start_store proxyPort (Rejected r) child g)).
Qed.

(** X15.  Two calls in a row: whatever the first spawned proxy did in
    between (also when it reported a spawn error), the second call sends
    SIGHUP to exactly that process. *)
Theorem second_start_kills_first_proxy
    (port1 port2 : N) (first second : Proxy.ChildProcess)
    (g : Proxy.SharedStateGlobal) (evs : list Proxy.event) (mount : deferred unit) :
  let st1 := Proxy.run evs (Proxy.startDebugProxy port1 (Fulfilled tt) first g) in
  Proxy.killed (Proxy.startDebugProxy port2 mount second (Proxy.global st1))
  = [(first, lit "SIGHUP")].
Proof.
  intros st1.
  destruct (proxy_start_store port2 mount second (Proxy.global st1)) as [K _].
  rewrite K. unfold st1.
  destruct (proxy_run_global evs (Proxy.startDebugProxy port1 (Fulfilled tt) first g))
    as [G _].
  rewrite G.
  rewrite (proj2 (proxy_start_store port1 (Fulfilled tt) first g)). reflexivity.
Qed.

(** ** Looking up the installed application *)

Lemma dropDigits_split (s : jsstring) :
  exists ds, forallb isDigit ds = true /\ s = ds ++ dropDigits s.
Proof.
  induction s as [| c s [ds [Hd Hs]]]; [exists []; auto|].
  cbn [dropDigits]. destruct (isDigit c) eqn:E.
  - exists (c :: ds). cbn [forallb]. rewrite E, Hd. split; [reflexivity|].
    cbn. rewrite <- Hs. reflexivity.
  - exists []. auto.
Qed.

Lemma dropDigits_app (ds rest : jsstring) :
  forallb isDigit ds = true -> dropDigits (ds ++ rest) = dropDigits rest.
Proof.
  induction ds as [| c ds IH]; intros H; [reflexivity|].
  cbn [forallb] in H. apply andb_true_iff in H. destruct H as [Hc Hd].
  cbn [app dropDigits]. rewrite Hc. apply IH. exact Hd.
Qed.

Lemma installedAppsFile_shape_aux (s : jsstring) :
  testInstalledAppsFile s = true
  <-> exists ds, ds <> [] /\ forallb isDigit ds = true
                 /\ s = lit "/tmp/" ++ ds ++ lit ".ideviceinstaller".
Proof.
  unfold testInstalledAppsFile. split.
  - destruct (startsWith (lit "/tmp/") s) eqn:P; [| discriminate].
    apply startsWith_prefix in P. destruct P as [post ->].
    change (skipn 5 (lit "/tmp/" ++ post)) with post.
    destruct post as [| c r]; [discriminate|].
    intros H. apply andb_true_iff in H. destruct H as [Hc Hr].
    apply eqb_eq in Hr.
    destruct (dropDigits_split (c :: r)) as [ds [Hd Hs]].
    rewrite Hr in Hs. exists ds. split; [| split; [exact Hd|]].
    + intros ->. cbn in Hs. injection Hs as -> _. discriminate Hc.
    + rewrite Hs. reflexivity.
  - intros [ds [Hne [Hd ->]]].
    assert (P : startsWith (lit "/tmp/")
                  (lit "/tmp/" ++ ds ++ lit ".ideviceinstaller") = true)
      by (apply startsWith_prefix; eauto).
    rewrite P.
    change (skipn 5 (lit "/tmp/" ++ ds ++ lit ".ideviceinstaller"))
      with (ds ++ lit ".ideviceinstaller").
    destruct ds as [| c ds]; [contradiction|].
    cbn [forallb] in Hd. apply andb_true_iff in Hd. destruct Hd as [Hc Hd].
    cbn [app dropDigits]. rewrite Hc. cbn [andb].
    rewrite (dropDigits_app _ _ Hd). reflexivity.
Qed.

(** X16.  The test [startApp] applies to the trimmed output of the
    listing command accepts exactly the names [/tmp/<digits>.ideviceinstaller]
    with at least one digit. *)
Theorem installedAppsFile_shape (s : jsstring) :
  testInstalledAppsFile s = true
  <-> exists ds, ds <> [] /\ forallb isDigit ds = true
                 /\ s = lit "/tmp/" ++ ds ++ lit ".ideviceinstaller".
Proof. exact (installedAppsFile_shape_aux s). Qed.








(** ** The wrapper: which failures get an English message *)

Lemma runNode_run (evs : list event) (st : state) :
  runNode evs st = run (flat_map (fun e => [e; Tick; Tick]) evs) st.
Proof.
  revert st. induction evs as [| e evs IH]; intros st; [reflexivity|].
  cbn [runNode fold_left flat_map app run]. unfold runNode, run in IH.
  rewrite IH. reflexivity.
Qed.

Lemma in_with_ticks (err : jsstring) (evs : list event) :
  In (Error err) (flat_map (fun e => [e; Tick; Tick]) evs) -> In (Error err) evs.
Proof.
  intros H. apply in_flat_map in H. destruct H as [e [He H]].
  destruct H as [H | [H | [H | []]]]; try discriminate H.
  rewrite <- H. exact He.
Qed.

Lemma defaultError_string (s : jsstring) :
  Wrapper.defaultError (Str s) = Wrapper.ThrownString s.
Proof. reflexivity. Qed.

(** X19.  The wrapper never puts an English message on a failure of
    the handshake.  [defaultError] throws a string as it is, and the
    handshake rejects with the strings ["UnableToLaunchApp"] and
    ["DeviceLaunchTimeout"]: the wrapper's [startAppViaDebugger] throws
    one of these two strings, or what [defaultError] makes of a socket
    error that occurred.  It returns the socket exactly when the
    underlying promise is fulfilled. *)
Theorem wrapper_keeps_handshake_strings
    (portNumber : N) (packagePath : jsstring) (appLaunchStepTimeout : option N)
    (evs : list event) (s : jsstring) :
  let raw := promise (runNode evs
               (startAppViaDebugger portNumber packagePath
                  (Wrapper.stepTimeout appLaunchStepTimeout))) in
  let wrapped := Wrapper.startAppViaDebugger portNumber packagePath
                   appLaunchStepTimeout evs in
  Wrapper.defaultError (Str s) = Wrapper.ThrownString s
  /\ (forall v, wrapped = Wrapper.Returned v <-> raw = Fulfilled v)
  /\ (wrapped = Wrapper.Waiting <-> raw = Pending)
  /\ (forall t, wrapped = Wrapper.Threw t ->
        t = Wrapper.ThrownString (lit "UnableToLaunchApp")
        \/ t = Wrapper.ThrownString (lit "DeviceLaunchTimeout")
        \/ exists err, In (Error err) evs /\ t = Wrapper.defaultError (Err err)).
Proof.
  intros raw wrapped.
  assert (W : wrapped = Wrapper.catchDefaultError raw) by reflexivity.
  split; [reflexivity|]. rewrite W. clear W wrapped.
  split; [| split].
  - intros v. destruct raw; cbn; split; intros H; congruence.
  - destruct raw; cbn; split; intros H; congruence.
  - intros t H. destruct raw as [| v | r] eqn:R; cbn in H; try discriminate H.
    injection H as <-. unfold raw in R. rewrite runNode_run in R.
    apply promise_rejected in R. destruct R as [n R].
    apply run_rejected_reason in R.
    destruct R as [R | [-> | [-> | [err [Hin ->]]]]].
    + destruct n; discriminate R.
    + left. reflexivity.
    + right. left. reflexivity.
    + right. right. exists err. split; [apply in_with_ticks; exact Hin | reflexivity].
Qed.

Lemma errorMap_entries :
  Forall (fun kv =>
            Wrapper.get (lit (fst kv)) = Wrapper.Text (lit (snd kv))
            /\ Wrapper.truthy (Wrapper.Text (lit (snd kv))) = true
            /\ Wrapper.get (lit (snd kv)) = Wrapper.Undefined)
         Wrapper.errorMap.
Proof. repeat constructor. Qed.

(** X20.  For an [Error] whose message is one of the nine ids of the
    table, [defaultError] throws it with the table's text as message, and
    that text is not an id itself, so a second pass would leave it.  A
    message that the table (with what it inherits) does not have is left
    as it is. *)
Theorem defaultError_translates_ids (k v : string) (message : jsstring) :
  (In (k, v) Wrapper.errorMap ->
   Wrapper.defaultError (Err (lit k)) = Wrapper.ThrownError (Wrapper.Text (lit v))
   /\ lit v <> lit k
   /\ Wrapper.defaultError (Err (lit v)) = Wrapper.ThrownError (Wrapper.Text (lit v)))
  /\ (Wrapper.get message = Wrapper.Undefined ->
      Wrapper.defaultError (Err message)
      = Wrapper.ThrownError (Wrapper.Text message)).
Proof.
  split.
  - intros Hin.
    pose proof errorMap_entries as F. rewrite Forall_forall in F.
    destruct (F (k, v) Hin) as (G & T & U). cbn [fst snd] in G, T, U.
    unfold Wrapper.defaultError. rewrite G, T, U. cbn [Wrapper.truthy].
    repeat split. intros E. rewrite E, G in U. discriminate U.
  - intros U. unfold Wrapper.defaultError. rewrite U. reflexivity.
Qed.


